(** * Process lifecycle of the OCI engine (internal/pkg/runtime/engines/oci/process.go)

    A shallow embedding of [setRlimit], [emptyProcess], [StartProcess],
    [PreStartProcess], [PostStartProcess], the [multiWriter] broadcaster and
    the attach accept loop [handleStream], followed by the properties of the
    handshake, the resource limiter and the broadcaster.

    Everything the Go code asks of the operating system or of another
    package (chdir, setrlimit, the handshake connection, the security
    policy, exec, hooks, the instance store, the listener) is an oracle of
    the record [Oracle]: it answers from the history of events so far, and
    every call is appended, with its answer, to the trace of the world.
    One goroutine is followed at a time. The goroutines it starts are
    events of the trace; what they do with a lock it asks for is an oracle
    as well, which leaves no event. *)

From Stdlib Require Import ZArith String Lia.
From Stdlib.Init Require Import Byte.
From stdpp Require Import base gmap strings list.

Set Default Proof Using "Type".

(* ===================================================================== *)
(** ** Go values *)
(* ===================================================================== *)

(** A Go [error] that is not nil. [io.EOF] and [io.ErrShortWrite] are
    sentinel values compared by identity; every other error is known by its
    message only. The nil error is [None : option error]. *)
Inductive error : Type :=
| io_EOF
| io_ErrShortWrite
| errorString (msg : string).

(** [err.Error()] *)
Definition Error (e : error) : string :=
  match e with
  | io_EOF => "EOF"
  | io_ErrShortWrite => "short write"
  | errorString msg => msg
  end.

(** [fmt.Errorf(pre + "%s", err)]: the message of [err] after a fixed text *)
Definition Errorf_err (pre : string) (e : error) : error :=
  errorString (pre +:+ Error e).

(** [err != io.EOF] for an [err] that may be nil *)
Definition is_EOF (err : option error) : bool :=
  match err with
  | Some io_EOF => true
  | _ => false
  end.

(** [len(p)] as a Go [int] *)
Definition len {A} (p : list A) : Z := Z.of_nat (length p).

(** [[]byte("t")] and [[]byte("s")], the two one-byte handshake tokens *)
Definition token_t : list byte := [x74].
Definition token_s : list byte := [x73].

(** [strings.HasPrefix(s, prefix)] *)
Definition strings_HasPrefix (s pre : string) : bool := String.prefix pre s.

(** [filepath.IsAbs] on unix: the path starts with a slash. *)
Definition filepath_IsAbs (path : string) : bool := strings_HasPrefix path "/".

(** [e[n:]] for [n <= len(e)] *)
Definition string_from (n : nat) (e : string) : string :=
  String.substring n (String.length e - n) e.

(** [specs.POSIXRlimit] *)
Record POSIXRlimit := {
  Type_ : string;
  Hard : Z;
  Soft : Z
}.

(** [specs.Hook]: only handed on to [exec.Hook]. *)
Record Hook := {
  hook_Path : string;
  hook_Args : list string
}.

(** [specs.Hooks]; the engine holds a pointer to it, nil when absent. *)
Record Hooks := {
  Prestart : list Hook;
  Poststart : list Hook
}.

(** The fields of [specs.Process] that process.go reads. *)
Record Process := {
  Cwd : string;
  Args : list string;
  Env : list string;
  Rlimits : list POSIXRlimit
}.

(** [specs.State]: the annotation map is a Go map, nil when never made. *)
Record State := {
  Annotations : option (gmap string string)
}.

(** The engine as process.go sees it: [engine.EngineConfig.OciConfig],
    [engine.EngineConfig.{EmptyProcess,MasterPts,SlavePts}] and
    [engine.CommonConfig.ContainerID]. The process description is taken as
    present (a nil [Process] pointer is outside this model). *)
Record EngineOperations := {
  OciProcess : Process;
  OciHooks : option Hooks;
  EmptyProcess : bool;
  MasterPts : Z;
  SlavePts : Z;
  ContainerID : string
}.

(** [specs.Spec], the value at [engine.EngineConfig.OciConfig.Spec]: its
    fields [Process] and [Hooks] are the ones process.go reads through
    [OciConfig]; its address is what [security.Configure] is handed. *)
Record Spec := {
  spec_Process : Process;
  spec_Hooks : option Hooks
}.

Definition OciSpec (engine : EngineOperations) : Spec :=
  {| spec_Process := OciProcess engine; spec_Hooks := OciHooks engine |}.

(** The engine after a store into its argument list. In
    [args := engine.EngineConfig.OciConfig.Process.Args; args[0] = bpath]
    the slice [args] shares its array with the field, so the store is seen
    through the engine, and through the spec, from then on. *)
Definition with_Args (args : list string) (engine : EngineOperations)
  : EngineOperations :=
  {| OciProcess := {| Cwd := Cwd (OciProcess engine);
                      Args := args;
                      Env := Env (OciProcess engine);
                      Rlimits := Rlimits (OciProcess engine) |};
     OciHooks := OciHooks engine;
     EmptyProcess := EmptyProcess engine;
     MasterPts := MasterPts engine;
     SlavePts := SlavePts engine;
     ContainerID := ContainerID engine |}.

(** [instance.File]: the one field that is read. *)
Record File := { Path : string }.

(** A [net.Conn] accepted by the listener, known by a number. *)
Definition Conn := nat.

(** An [io.Writer] held by a broadcaster: a client connection, the
    [TestWriter], or a pointer to another broadcaster. *)
Inductive Writer : Type :=
| ConnW (c : Conn)
| TestW
| MultiW (a : nat).

(** [type multiWriter struct { mux sync.Mutex; writers []io.Writer }];
    [mux] is [true] while the goroutine that is followed holds the lock.
    What the other goroutines do with the lock is part of the environment
    ([mutex_Lock] below). *)
Record multiWriter := {
  mux : bool;
  writers : list Writer
}.

(* ===================================================================== *)
(** ** Events, oracles, worlds *)
(* ===================================================================== *)

Inductive Event : Type :=
| EvChdir (dir : string) (r : option error)
| EvRlimitSet (rl : POSIXRlimit) (r : option error)
| EvSetenv (key value : string)
| EvLookPath (file : string) (r : string * option error)
| EvDup3 (oldfd newfd flags : Z) (r : option error)
| EvClose (fd : Z) (r : option error)
| EvSetsid (r : option error)
| EvIoctlTIOCSCTTY (fd : Z) (errno : Z)
| EvConnWrite (p : list byte) (r : Z * option error)
| EvConnRead (buflen : Z) (r : list byte * option error)
| EvConnClose
| EvSignalNotify
| EvSecurityConfigure (r : option error)
| EvExec (argv0 : string) (argv envv : list string) (r : option error)
| EvLog (level msg : string)
| EvKill (pid : Z) (sig : string)
| EvHook (h : Hook) (st : State) (r : option error)
| EvInstanceGet (id : string) (r : option File * option error)
| EvCreateSocket (path : string) (r : option error)
| EvUpdateState (status : string) (st : State) (r : option error)
| EvGoHandleStream (master : Z)
| EvAccept (r : Conn + error)
| EvListenerClose
| EvGoCopyToClients (mw : nat)
| EvGoCopyFromClient (master : Z) (b : Conn)
| EvDestWrite (c : Conn) (p : list byte) (r : Z * option error).

(** What [l.Accept()] does: it returns a connection or an error, or no
    client ever comes and the call does not return. *)
Inductive AcceptResult : Type :=
| Accepted (r : Conn + error)
| AcceptBlocks.

(** What [mux.Lock()] meets when the caller does not hold the lock itself.
    The lock is free, or another goroutine holds it and unlocks it later:
    the call returns with the lock. Or another goroutine holds it and never
    unlocks it (a Write waiting on a destination that does not read): the
    call does not return. *)
Inductive LockResult : Type :=
| Locked
| LockBlocks.

Record Oracle := {
  os_Chdir : list Event -> string -> option error;
  rlimit_Set : list Event -> string -> Z -> Z -> option error;
  exec_LookPath : list Event -> string -> string * option error;
  syscall_Dup3 : list Event -> Z -> Z -> Z -> option error;
  syscall_Close : list Event -> Z -> option error;
  syscall_Setsid : list Event -> option error;
  ioctl_TIOCSCTTY : list Event -> Z -> Z;
  Errno_Error : Z -> string;
  conn_Write : list Event -> list byte -> Z * option error;
  conn_Read : list Event -> Z -> list byte * option error;
  security_Configure : list Event -> Spec -> option error;
  syscall_Exec : list Event -> string -> list string -> list string -> option error;
  exec_Hook : list Event -> Hook -> State -> option error;
  instance_Get : list Event -> string -> option File * option error;
  filepath_Dir : string -> string;
  filepath_Join : string -> string -> string;
  unix_CreateSocket : list Event -> string -> option error;
  engine_updateState : list Event -> string -> State -> option error;
  net_Accept : list Event -> AcceptResult;
  dest_Write : list Event -> Conn -> list byte -> Z * option error;
  mutex_Lock : list Event -> nat -> LockResult
}.

(** The memory of one process and what it has done so far. The heap holds
    the broadcasters; in process.go their lists are written by the accept
    loop alone (through Add), the copy tasks only read them (in Write). *)
Record World := {
  w_trace : list Event;
  w_State : State;
  w_heap : gmap nat multiWriter
}.

Definition emit (e : Event) (w : World) : World :=
  {| w_trace := w_trace w ++ [e]; w_State := w_State w; w_heap := w_heap w |}.

Definition set_State (s : State) (w : World) : World :=
  {| w_trace := w_trace w; w_State := s; w_heap := w_heap w |}.

Definition set_heap (h : gmap nat multiWriter) (w : World) : World :=
  {| w_trace := w_trace w; w_State := w_State w; w_heap := h |}.

(** How a piece of Go code stops other than by falling through. *)
Inductive Stop : Type :=
| Return (err : option error)   (* a [return] statement of a func() error *)
| Replaced                      (* [syscall.Exec] succeeded *)
| Panic (msg : string)          (* a run-time panic *)
| Exit (code : Z)               (* [os.Exit], [sylog.Fatalf] *)
| SignalLoop                    (* inside the signal loop of emptyProcess *)
| Blocked                       (* waiting for ever on a call *)
| Deadlock                      (* locking a mutex this goroutine holds *)
| OutOfFuel.

Inductive Res (A : Type) : Type :=
| Val (a : A)
| Halt (s : Stop).
Arguments Val {A} a.
Arguments Halt {A} s.

Definition M (A : Type) : Type := World -> Res A * World.

Definition ret {A} (a : A) : M A := fun w => (Val a, w).

Definition bind {A B} (m : M A) (k : A -> M B) : M B :=
  fun w =>
    match m w with
    | (Val a, w') => k a w'
    | (Halt s, w') => (Halt s, w')
    end.

Definition halt {A} (s : Stop) : M A := fun w => (Halt s, w).

(** [return err] *)
Definition return_ {A} (err : option error) : M A := halt (Return err).

(** The call of a func(...) error: a [return] inside ends the call. *)
Definition call (body : M (option error)) : M (option error) :=
  fun w =>
    match body w with
    | (Halt (Return err), w') => (Val err, w')
    | r => r
    end.

Notation "'let*' x ':=' m 'in' k" := (bind m (fun x => k))
  (at level 10, x pattern, k at level 200, only parsing).
Notation "'do*' m 'in' k" := (bind m (fun _ => k))
  (at level 10, k at level 200, only parsing).

(** An oracle call: ask with the history, record call and answer. *)
Definition ask {A} (f : list Event -> A) (ev : A -> Event) : M A :=
  fun w => let r := f (w_trace w) in (Val r, emit (ev r) w).

Definition tell (e : Event) : M unit := fun w => (Val tt, emit e w).

(** [if err != nil { return f(err) }] *)
Definition check (wrap : error -> error) (err : option error) : M unit :=
  match err with
  | Some e => return_ (Some (wrap e))
  | None => ret tt
  end.

(* ===================================================================== *)
(** ** The resource limiter *)
(* ===================================================================== *)

Section Code.
Variable sys : Oracle.

(** The inner loop of setRlimit: the first recorded kind equal to [ty]. *)
Fixpoint already_set (resources : list string) (ty : string) : option string :=
  match resources with
  | [] => None
  | t :: rest => if String.eqb t ty then Some t else already_set rest ty
  end.

Fixpoint setRlimit_loop (rlimits : list POSIXRlimit) (resources : list string)
  : M (option error) :=
  match rlimits with
  | [] => ret None
  | rl :: rest =>
      let* err := ask (fun h => rlimit_Set sys h (Type_ rl) (Soft rl) (Hard rl))
                      (EvRlimitSet rl) in
      do* check id err in
      match already_set resources (Type_ rl) with
      | Some t => return_ (Some (errorString (t +:+ " was already set")))
      | None => setRlimit_loop rest (resources ++ [Type_ rl])
      end
  end.

Definition setRlimit (rlimits : list POSIXRlimit) : M (option error) :=
  call (setRlimit_loop rlimits []).

(* ===================================================================== *)
(** ** The child runner *)
(* ===================================================================== *)

Definition masterConn_Write (p : list byte) : M (Z * option error) :=
  ask (fun h => conn_Write sys h p) (EvConnWrite p).

(** [data := make([]byte, 1); masterConn.Read(data)] *)
Definition masterConn_Read : M (list byte * option error) :=
  ask (fun h => conn_Read sys h 1%Z) (EvConnRead 1%Z).

(** emptyProcess up to its signal loop. The loop (reap children on SIGCHLD,
    [os.Exit(0)] on SIGINT and SIGTERM) is entered and not followed. *)
Definition emptyProcess (engine : EngineOperations) : M (option error) :=
  call (
    let* wr := masterConn_Write token_t in
    do* check (Errorf_err "failed to pause process: ") (snd wr) in
    let* rd := masterConn_Read in
    do* check (Errorf_err "failed to receive ack from Smaster: ") (snd rd) in
    do* tell EvConnClose in
    do* tell EvSignalNotify in
    let* err := ask (fun h => security_Configure sys h (OciSpec engine))
                    EvSecurityConfigure in
    do* check (Errorf_err "failed to apply security configuration: ") err in
    halt SignalLoop).

(** [for _, e := range Env { if strings.HasPrefix(e, "PATH=") { os.Setenv("PATH", e[5:]) } }] *)
Fixpoint setenv_PATH (env : list string) : M unit :=
  match env with
  | [] => ret tt
  | e :: rest =>
      do* (if strings_HasPrefix e "PATH="
           then tell (EvSetenv "PATH" (string_from 5 e))
           else ret tt) in
      setenv_PATH rest
  end.

(** The terminal set-up of StartProcess; stdin, stdout, stderr are 0, 1, 2. *)
Definition attach_terminal (engine : EngineOperations) : M unit :=
  let slaveFd := SlavePts engine in
  let* err := ask (fun h => syscall_Dup3 sys h slaveFd 0 0)%Z (EvDup3 slaveFd 0 0)%Z in
  do* check id err in
  let* err := ask (fun h => syscall_Dup3 sys h slaveFd 1 0)%Z (EvDup3 slaveFd 1 0)%Z in
  do* check id err in
  let* err := ask (fun h => syscall_Dup3 sys h slaveFd 2 0)%Z (EvDup3 slaveFd 2 0)%Z in
  do* check id err in
  let* err := ask (fun h => syscall_Close sys h (MasterPts engine))
                  (EvClose (MasterPts engine)) in
  do* check id err in
  let* err := ask (fun h => syscall_Close sys h slaveFd) (EvClose slaveFd) in
  do* check id err in
  let* err := ask (syscall_Setsid sys) EvSetsid in
  do* check id err in
  let* errno := ask (fun h => ioctl_TIOCSCTTY sys h 0%Z) (EvIoctlTIOCSCTTY 0%Z) in
  if negb (errno =? 0)%Z
  then return_ (Some (errorString
         ("failed to set crontrolling terminal: " +:+ Errno_Error sys errno)))
  else ret tt.

Definition StartProcess (engine : EngineOperations) : M (option error) :=
  call (
    let cwd := Cwd (OciProcess engine) in
    let cwd := if String.eqb cwd "" then "/" else cwd in
    do* (if negb (filepath_IsAbs cwd)
         then return_ (Some (errorString "cwd property must be an absolute path"))
         else ret tt) in
    let* err := ask (fun h => os_Chdir sys h cwd) (EvChdir cwd) in
    do* check (Errorf_err "can't enter in current working directory: ") err in
    let* err := setRlimit (Rlimits (OciProcess engine)) in
    do* check id err in
    if EmptyProcess engine then
      let* err := emptyProcess engine in return_ err
    else
    let args := Args (OciProcess engine) in
    let env := Env (OciProcess engine) in
    do* setenv_PATH env in
    match args with
    | [] => halt (Panic "index out of range [0] with length 0")
    | arg0 :: rest =>
        let* (bpath, err) := ask (fun h => exec_LookPath sys h arg0)
                                  (EvLookPath arg0) in
        do* check (fun e => errorString (Error e)) err in
        (* args[0] = bpath *)
        let args := bpath :: rest in
        let engine := with_Args args engine in
        do* (if negb (MasterPts engine =? -1)%Z
             then attach_terminal engine
             else ret tt) in
        (* pause process *)
        let* wr := masterConn_Write token_t in
        do* check (Errorf_err "failed to pause process: ") (snd wr) in
        (* block on read waiting SIGCONT signal *)
        let* rd := masterConn_Read in
        do* check (Errorf_err "failed to receive ack from Smaster: ") (snd rd) in
        let* err := ask (fun h => security_Configure sys h (OciSpec engine))
                        EvSecurityConfigure in
        do* check (Errorf_err "failed to apply security configuration: ") err in
        let* err := ask (fun h => syscall_Exec sys h bpath args env)
                        (EvExec bpath args env) in
        match err with
        | None => halt Replaced
        | Some e =>
            (* tell Smaster to not execute PostStartProcess *)
            let* wr := masterConn_Write token_t in
            do* (match snd wr with
                 | Some e' => tell (EvLog "error"
                                ("fail to send data to Smaster: " +:+ Error e'))
                 | None => ret tt
                 end) in
            return_ (Some (errorString
              ("exec " +:+ bpath +:+ " failed: " +:+ Error e)))
        end
    end).

(* ===================================================================== *)
(** ** The parent controller *)
(* ===================================================================== *)

Definition get_State : M State := fun w => (Val (w_State w), w).

(** [m[key] = value] on the annotation map; a nil map panics. *)
Definition annotate (key value : string) : M unit :=
  fun w =>
    match Annotations (w_State w) with
    | None => (Halt (Panic "assignment to entry in nil map"), w)
    | Some m => (Val tt, set_State {| Annotations := Some (<[key := value]> m) |} w)
    end.

Fixpoint run_Prestart (hooks : list Hook) : M unit :=
  match hooks with
  | [] => ret tt
  | h :: rest =>
      let* st := get_State in
      let* err := ask (fun hist => exec_Hook sys hist h st) (EvHook h st) in
      do* check id err in
      run_Prestart rest
  end.

Fixpoint run_Poststart (hooks : list Hook) : M unit :=
  match hooks with
  | [] => ret tt
  | h :: rest =>
      let* st := get_State in
      let* err := ask (fun hist => exec_Hook sys hist h st) (EvHook h st) in
      do* (match err with
           | Some e => tell (EvLog "warning" (Error e))
           | None => ret tt
           end) in
      run_Poststart rest
  end.

Definition updateState (status : string) : M (option error) :=
  let* st := get_State in
  ask (fun h => engine_updateState sys h status st) (EvUpdateState status st).

Definition PreStartProcess (engine : EngineOperations) (pid : Z)
  : M (option error) :=
  call (
    (* stop container process *)
    do* tell (EvKill pid "SIGSTOP") in
    do* (match OciHooks engine with
         | Some hooks => run_Prestart (Prestart hooks)
         | None => ret tt
         end) in
    let master := if negb (MasterPts engine =? -1)%Z then MasterPts engine else 0%Z in
    let* (file, err) := ask (fun h => instance_Get sys h (ContainerID engine))
                             (EvInstanceGet (ContainerID engine)) in
    match file with
    | None => halt (Panic "invalid memory address or nil pointer dereference")
    | Some f =>
        let socket := filepath_Join sys (filepath_Dir sys (Path f))
                        (ContainerID engine +:+ ".sock") in
        do* annotate "io.sylabs.runtime.oci.attach-socket" socket in
        let* err := ask (fun h => unix_CreateSocket sys h socket)
                        (EvCreateSocket socket) in
        do* check id err in
        let* err := updateState "created" in
        do* check id err in
        do* tell (EvGoHandleStream master) in
        (* send the ACK *)
        let* wr := masterConn_Write token_s in
        do* check (Errorf_err "failed to send ACK to start process: ") (snd wr) in
        (* wait container process execution *)
        let* rd := masterConn_Read in
        if negb (is_EOF (snd rd)) then return_ (snd rd) else return_ None
    end).

Definition PostStartProcess (engine : EngineOperations) (pid : Z)
  : M (option error) :=
  call (
    let* err := updateState "running" in
    do* check id err in
    do* (match OciHooks engine with
         | Some hooks => run_Poststart (Poststart hooks)
         | None => ret tt
         end) in
    return_ None).

End Code.

(* ===================================================================== *)
(** ** The stream broadcaster *)
(* ===================================================================== *)

(** The loop of [multiWriter.Write] and its final [return len(p), nil], over
    any kind of destination: [wWrite w p] is the dynamic call [w.Write(p)]. *)
Section Broadcast.
Context {W St : Type}.
Variable wWrite : W -> list byte -> St -> Res (Z * option error) * St.

Fixpoint Write_loop (ws : list W) (p : list byte) (st : St)
  : Res (Z * option error) * St :=
  match ws with
  | [] => (Val (len p, None), st)
  | w :: rest =>
      match wWrite w p st with
      | (Val (n, Some e), st') => (Val (n, Some e), st')
      | (Val (n, None), st') =>
          if negb (n =? len p)%Z
          then (Val (n, Some io_ErrShortWrite), st')
          else Write_loop rest p st'
      | (Halt s, st') => (Halt s, st')
      end
  end.

End Broadcast.

(** A destination call together with its answer. *)
Record Delivery (W : Type) := {
  d_dest : W;
  d_data : list byte;
  d_res : Res (Z * option error)
}.
Arguments d_dest {W} _.
Arguments d_data {W} _.
Arguments d_res {W} _.

(** The same destinations, each call written down in order. *)
Definition logged {W St : Type}
    (wWrite : W -> list byte -> St -> Res (Z * option error) * St)
    (w : W) (p : list byte) (st : St * list (Delivery W))
  : Res (Z * option error) * (St * list (Delivery W)) :=
  let '(r, st') := wWrite w p (fst st) in
  (r, (st', snd st ++ [{| d_dest := w; d_data := p; d_res := r |}])).


Section Attach.
Variable sys : Oracle.

Definition nil_deref {A} : M A :=
  halt (Panic "invalid memory address or nil pointer dereference").

(** [mw.mux.Lock()]. A [sync.Mutex] cannot be taken twice: the goroutine
    that holds it waits for itself. Held by another goroutine, the call
    waits for that one to unlock. *)
Definition Lock (a : nat) : M unit :=
  fun w =>
    match w_heap w !! a with
    | None => nil_deref w
    | Some mw =>
        if mux mw then (Halt Deadlock, w)
        else
          match mutex_Lock sys (w_trace w) a with
          | Locked =>
              (Val tt, set_heap (<[a := {| mux := true; writers := writers mw |}]>
                                   (w_heap w)) w)
          | LockBlocks => (Halt Blocked, w)
          end
    end.

(** [mw.mux.Unlock()]; in process.go it follows a Lock by the same
    goroutine. *)
Definition Unlock (a : nat) : M unit :=
  fun w =>
    match w_heap w !! a with
    | None => nil_deref w
    | Some mw =>
        if mux mw
        then (Val tt, set_heap (<[a := {| mux := false; writers := writers mw |}]>
                                  (w_heap w)) w)
        else (Halt (Panic "sync: unlock of unlocked mutex"), w)
    end.

(** [mw.writers] *)
Definition get_writers (a : nat) : M (list Writer) :=
  fun w =>
    match w_heap w !! a with
    | None => nil_deref w
    | Some mw => (Val (writers mw), w)
    end.

(** [mw.writers = ws] *)
Definition set_writers (a : nat) (ws : list Writer) : M unit :=
  fun w =>
    match w_heap w !! a with
    | None => nil_deref w
    | Some mw => (Val tt, set_heap (<[a := {| mux := mux mw; writers := ws |}]>
                                      (w_heap w)) w)
    end.

(** [defer d]: [d] runs when the body returns and when it panics. *)
Definition defer_ {A} (d : M unit) (body : M A) : M A :=
  fun w =>
    match body w with
    | (Val a, w') =>
        match d w' with
        | (Val _, w'') => (Val a, w'')
        | (Halt s, w'') => (Halt s, w'')
        end
    | (Halt (Panic msg), w') =>
        match d w' with
        | (Val _, w'') => (Halt (Panic msg), w'')
        | (Halt s, w'') => (Halt s, w'')
        end
    | r => r
    end.

(** [(mw *multiWriter) Write(p)], given how a destination is written to. *)
Definition multiWriter_Write
    (wWrite : Writer -> list byte -> M (Z * option error))
    (a : nat) (p : list byte) : M (Z * option error) :=
  do* Lock a in
  defer_ (Unlock a)
    (let* ws := get_writers a in
     Write_loop wWrite ws p).

(** [(t *TestWriter) Write(p)] *)
Definition TestWriter_Write (p : list byte) : M (Z * option error) :=
  ret (len p, None).

(** [w.Write(p)] for a writer held by a broadcaster. *)
Fixpoint Writer_Write (fuel : nat) (w : Writer) (p : list byte)
  : M (Z * option error) :=
  match fuel with
  | O => halt OutOfFuel
  | S fuel' =>
      match w with
      | ConnW c => ask (fun h => dest_Write sys h c p) (EvDestWrite c p)
      | TestW => TestWriter_Write p
      | MultiW a => multiWriter_Write (Writer_Write fuel') a p
      end
  end.

(** [(mw *multiWriter) Add(writer)] *)
Definition multiWriter_Add (a : nat) (writer : Writer) : M unit :=
  do* Lock a in
  let* ws := get_writers a in
  do* set_writers a (ws ++ [writer]) in
  Unlock a.

(** The loop of [MultiWriter]: a writer that is a broadcaster gives its
    writers, any other writer gives itself. *)
Fixpoint MultiWriter_loop (ws : list Writer) (allwriters : list Writer)
  : M (list Writer) :=
  match ws with
  | [] => ret allwriters
  | w :: rest =>
      match w with
      | MultiW a =>
          let* inner := get_writers a in
          MultiWriter_loop rest (allwriters ++ inner)
      | _ => MultiWriter_loop rest (allwriters ++ [w])
      end
  end.

(** [&multiWriter{writers: allwriters}] at an address not yet in use *)
Definition new_multiWriter (allwriters : list Writer) : M nat :=
  fun w =>
    let a := fresh (dom (w_heap w)) in
    (Val a, set_heap (<[a := {| mux := false; writers := allwriters |}]>
                        (w_heap w)) w).

Definition MultiWriter (ws : list Writer) : M nat :=
  let* allwriters := MultiWriter_loop ws [] in
  new_multiWriter allwriters.

(* ===================================================================== *)
(** ** The attach accept loop *)
(* ===================================================================== *)

(** A Go [int] after an addition: 64 bits, two's complement. *)
Definition wrap_int (x : Z) : Z :=
  ((x + 2 ^ 63) mod 2 ^ 64 - 2 ^ 63)%Z.

Definition maxClient : Z := 10.

Definition l_Accept : M (Conn + error) :=
  fun w =>
    match net_Accept sys (w_trace w) with
    | AcceptBlocks => (Halt Blocked, w)
    | Accepted r => (Val r, emit (EvAccept r) w)
    end.

(** [a[i] = c]: the index is checked against the length of the slice. In
    [a[numClient], err = l.Accept()] the call is made first and the store,
    with its check, comes after it. *)
Definition slice_store (a : list (option Conn)) (i : Z) (c : option Conn)
  : M (list (option Conn)) :=
  if ((0 <=? i) && (i <? len a))%Z
  then ret (<[Z.to_nat i := c]> a)
  else halt (Panic "index out of range").

(** The [for] loop of handleStream; one unit of fuel is one iteration. *)
Fixpoint handleStream_loop (fuel : nat) (master : Z) (numClient : Z)
    (a : list (option Conn)) (mw : option nat) : M unit :=
  match fuel with
  | O => halt OutOfFuel
  | S fuel' =>
      let numClient := wrap_int (numClient + 1) in
      if (numClient =? maxClient)%Z
      then handleStream_loop fuel' master numClient a mw
      else
        let* r := l_Accept in
        let c := match r with inl c => Some c | inr _ => None end in
        let* a := slice_store a numClient c in
        match r with
        | inr e => do* tell (EvLog "fatal" (Error e)) in halt (Exit 255)
        | inl b =>
            let* mw :=
              match mw with
              | None =>
                  let* m := MultiWriter [ConnW b] in
                  do* tell (EvGoCopyToClients m) in
                  ret (Some m)
              | Some m =>
                  do* multiWriter_Add m (ConnW b) in
                  ret (Some m)
              end in
            do* tell (EvGoCopyFromClient master b) in
            handleStream_loop fuel' master numClient a mw
        end
  end.

Definition handleStream (fuel : nat) (master : Z) : M unit :=
  defer_ (tell EvListenerClose)
    (handleStream_loop fuel master (-1)%Z
       (replicate (Z.to_nat maxClient) None) None).

End Attach.

(* ===================================================================== *)
(** ** Vocabulary of the statements *)
(* ===================================================================== *)

(** The world [w] after the events [evs], nothing else changed. *)
Definition extend (w : World) (evs : list Event) : World :=
  {| w_trace := w_trace w ++ evs; w_State := w_State w; w_heap := w_heap w |}.

(** The limit-set calls for [rls], every one of them answered with success. *)
Definition set_ok (rls : list POSIXRlimit) : list Event :=
  map (fun rl => EvRlimitSet rl None) rls.

(** The answer of the limit-set operation for [x], asked after the calls
    for [done] have all succeeded. *)
Definition set_answer (sys : Oracle) (w : World) (done : list POSIXRlimit)
    (x : POSIXRlimit) : option error :=
  rlimit_Set sys (w_trace w ++ set_ok done) (Type_ x) (Soft x) (Hard x).

(** What the caller of a func() error sees of a result. *)
Definition outcome (r : Res (option error)) : Res (option error) :=
  match r with
  | Halt (Return err) => Val err
  | r => r
  end.

(** Events of the configuration steps of StartProcess. *)
Definition is_setup (e : Event) : bool :=
  match e with
  | EvChdir _ _ | EvRlimitSet _ _ | EvSetenv _ _ | EvLookPath _ _
  | EvDup3 _ _ _ _ | EvClose _ _ | EvSetsid _ | EvIoctlTIOCSCTTY _ _ => true
  | _ => false
  end.

Definition is_exec (e : Event) : bool :=
  match e with EvExec _ _ _ _ => true | _ => false end.

Definition is_security (e : Event) : bool :=
  match e with EvSecurityConfigure _ => true | _ => false end.

Definition is_conn_write (e : Event) : bool :=
  match e with EvConnWrite _ _ => true | _ => false end.

(** The pause-notify token went out; the resume-ack came in. *)
Definition pause_sent (e : Event) : Prop :=
  exists n, e = EvConnWrite token_t (n, None).

Definition resume_received (e : Event) : Prop :=
  exists data, e = EvConnRead 1%Z (data, None).

(** The engine with another working directory. *)
Definition with_Cwd (cwd : string) (engine : EngineOperations) : EngineOperations :=
  {| OciProcess := {| Cwd := cwd;
                      Args := Args (OciProcess engine);
                      Env := Env (OciProcess engine);
                      Rlimits := Rlimits (OciProcess engine) |};
     OciHooks := OciHooks engine;
     EmptyProcess := EmptyProcess engine;
     MasterPts := MasterPts engine;
     SlavePts := SlavePts engine;
     ContainerID := ContainerID engine |}.

(** The spec with another working directory. *)
Definition spec_with_Cwd (cwd : string) (spec : Spec) : Spec :=
  {| spec_Process := {| Cwd := cwd;
                        Args := Args (spec_Process spec);
                        Env := Env (spec_Process spec);
                        Rlimits := Rlimits (spec_Process spec) |};
     spec_Hooks := spec_Hooks spec |}.

(** The environment [sys], except that the security policy looks at
    [view spec] where it is handed [spec]. *)
Definition security_shown (view : Spec -> Spec) (sys : Oracle) : Oracle := {|
  os_Chdir := os_Chdir sys;
  rlimit_Set := rlimit_Set sys;
  exec_LookPath := exec_LookPath sys;
  syscall_Dup3 := syscall_Dup3 sys;
  syscall_Close := syscall_Close sys;
  syscall_Setsid := syscall_Setsid sys;
  ioctl_TIOCSCTTY := ioctl_TIOCSCTTY sys;
  Errno_Error := Errno_Error sys;
  conn_Write := conn_Write sys;
  conn_Read := conn_Read sys;
  security_Configure := fun h spec => security_Configure sys h (view spec);
  syscall_Exec := syscall_Exec sys;
  exec_Hook := exec_Hook sys;
  instance_Get := instance_Get sys;
  filepath_Dir := filepath_Dir sys;
  filepath_Join := filepath_Join sys;
  unix_CreateSocket := unix_CreateSocket sys;
  engine_updateState := engine_updateState sys;
  net_Accept := net_Accept sys;
  dest_Write := dest_Write sys;
  mutex_Lock := mutex_Lock sys
|}.

(* ===================================================================== *)
(** ** Concrete runs *)
(* ===================================================================== *)

(** An environment given by the answers that the runs below vary; every
    other call succeeds. *)
Definition custom_env
    (look : list Event -> string -> string * option error)
    (lock : list Event -> nat -> LockResult)
    (set : list Event -> string -> Z -> Z -> option error)
    (read : list Event -> Z -> list byte * option error)
    (security : list Event -> Spec -> option error)
    (exec : list Event -> string -> list string -> list string -> option error)
    (get : list Event -> string -> option File * option error)
    (accept : list Event -> AcceptResult) : Oracle := {|
  os_Chdir := fun _ _ => None;
  rlimit_Set := set;
  exec_LookPath := look;
  syscall_Dup3 := fun _ _ _ _ => None;
  syscall_Close := fun _ _ => None;
  syscall_Setsid := fun _ => None;
  ioctl_TIOCSCTTY := fun _ _ => 0%Z;
  Errno_Error := fun _ => "errno";
  conn_Write := fun _ p => (len p, None);
  conn_Read := read;
  security_Configure := security;
  syscall_Exec := exec;
  exec_Hook := fun _ _ _ => None;
  instance_Get := get;
  filepath_Dir := fun _ => "/run/instances";
  filepath_Join := fun dir name => dir +:+ "/" +:+ name;
  unix_CreateSocket := fun _ _ => None;
  engine_updateState := fun _ _ _ => None;
  net_Accept := accept;
  dest_Write := fun _ _ p => (len p, None);
  mutex_Lock := lock
|}.

(** Path lookup returns the name it is given, and every lock is obtained. *)
Definition custom_sys := custom_env (fun _ file => (file, None)) (fun _ _ => Locked).

Definition get_ok (h : list Event) (id : string) : option File * option error :=
  (Some {| Path := "/run/instances/" +:+ id |}, None).

Fixpoint count_accepts (h : list Event) : nat :=
  match h with
  | [] => O
  | EvAccept _ :: rest => S (count_accepts rest)
  | _ :: rest => count_accepts rest
  end.

(** Every client is accepted; it is numbered by the accepts so far. *)
Definition accept_all (h : list Event) : AcceptResult :=
  Accepted (inl (count_accepts h)).

(** Every call succeeds: the peer answers the handshake with one byte and
    exec replaces the image. *)
Definition ok_sys : Oracle :=
  custom_sys (fun _ _ _ _ => None) (fun _ _ => ([x73], None)) (fun _ _ => None)
             (fun _ _ _ _ => None) get_ok accept_all.

(** A process that has done nothing yet; the annotation map exists. *)
Definition w0 : World :=
  {| w_trace := []; w_State := {| Annotations := Some ∅ |}; w_heap := ∅ |}.

Definition nofile (soft hard : Z) : POSIXRlimit :=
  {| Type_ := "nofile"; Hard := hard; Soft := soft |}.

(** cwd [/], args [/bin/true], the given limits, no terminal. *)
Definition true_engine (cwd : string) (rls : list POSIXRlimit) : EngineOperations :=
  {| OciProcess := {| Cwd := cwd; Args := ["/bin/true"]; Env := [];
                      Rlimits := rls |};
     OciHooks := None;
     EmptyProcess := false;
     MasterPts := (-1)%Z;
     SlavePts := (-1)%Z;
     ContainerID := "c1" |}.

(** As [ok_sys], but the second limit-set call is refused. *)
Definition second_set_refused : Oracle :=
  custom_sys (fun h _ _ _ =>
                match h with
                | [] => None
                | _ => Some (errorString "operation not permitted")
                end)
             (fun _ _ => ([x73], None)) (fun _ _ => None)
             (fun _ _ _ _ => None) get_ok accept_all.

(** As [ok_sys], but the security policy cannot be applied. *)
Definition security_refused : Oracle :=
  custom_sys (fun _ _ _ _ => None) (fun _ _ => ([x73], None))
             (fun _ _ => Some (errorString "seccomp: denied"))
             (fun _ _ _ _ => None) get_ok accept_all.

(** Programs are found in /usr/bin, and the security policy refuses the
    spec whose first argument is /usr/bin/true. *)
Definition usr_bin_true_refused : Oracle :=
  custom_env (fun _ file => ("/usr/bin/" +:+ file, None)) (fun _ _ => Locked)
             (fun _ _ _ _ => None) (fun _ _ => ([x73], None))
             (fun _ spec =>
                match Args (spec_Process spec) with
                | arg0 :: _ =>
                    if String.eqb arg0 "/usr/bin/true"
                    then Some (errorString "seccomp: denied")
                    else None
                | [] => None
                end)
             (fun _ _ _ _ => None) get_ok accept_all.

(** cwd [/], the command [true] by its name alone, no terminal. *)
Definition named_engine : EngineOperations :=
  {| OciProcess := {| Cwd := "/"; Args := ["true"]; Env := []; Rlimits := [] |};
     OciHooks := None;
     EmptyProcess := false;
     MasterPts := (-1)%Z;
     SlavePts := (-1)%Z;
     ContainerID := "c1" |}.

(** Every client is accepted, and once a client is wired the output copy
    task never lets go of the lock of the broadcaster again. *)
Definition copy_task_stuck : Oracle :=
  custom_env (fun _ file => (file, None))
             (fun h _ => match h with [] => Locked | _ => LockBlocks end)
             (fun _ _ _ _ => None) (fun _ _ => ([x73], None)) (fun _ _ => None)
             (fun _ _ _ _ => None) get_ok accept_all.

(** As [ok_sys], but the security policy refuses a spec without a working
    directory. *)
Definition cwd_required : Oracle :=
  custom_sys (fun _ _ _ _ => None) (fun _ _ => ([x73], None))
             (fun _ spec =>
                if String.eqb (Cwd (spec_Process spec)) ""
                then Some (errorString "cwd is not set")
                else None)
             (fun _ _ _ _ => None) get_ok accept_all.

(** As [ok_sys], but exec fails. *)
Definition exec_refused : Oracle :=
  custom_sys (fun _ _ _ _ => None) (fun _ _ => ([x73], None)) (fun _ _ => None)
             (fun _ _ _ _ => Some (errorString "exec format error"))
             get_ok accept_all.

(** The controller's side: the child closes the channel (end of stream),
    or the child sends one more byte. *)
Definition child_closes : Oracle :=
  custom_sys (fun _ _ _ _ => None) (fun _ _ => ([], Some io_EOF)) (fun _ _ => None)
             (fun _ _ _ _ => None) get_ok accept_all.

Definition child_sends_byte : Oracle :=
  custom_sys (fun _ _ _ _ => None) (fun _ _ => ([x74], None)) (fun _ _ => None)
             (fun _ _ _ _ => None) get_ok accept_all.

(** The instance lookup fails and still hands back a file value. *)
Definition lookup_fails : Oracle :=
  custom_sys (fun _ _ _ _ => None) (fun _ _ => ([], Some io_EOF)) (fun _ _ => None)
             (fun _ _ _ _ => None)
             (fun _ id => (Some {| Path := "/run/instances/" +:+ id |},
                           Some (errorString "no instance found")))
             accept_all.

(* ===================================================================== *)
(** ** Shapes of runs *)
(* ===================================================================== *)

(** The steps of StartProcess from the pause-notify token on. *)
Definition handshake_and_exec (sys : Oracle) (spec : Spec) (bpath : string)
    (args env : list string) : M (option error) :=
  let* wr := masterConn_Write sys token_t in
  do* check (Errorf_err "failed to pause process: ") (snd wr) in
  let* rd := masterConn_Read sys in
  do* check (Errorf_err "failed to receive ack from Smaster: ") (snd rd) in
  let* err := ask (fun h => security_Configure sys h spec) EvSecurityConfigure in
  do* check (Errorf_err "failed to apply security configuration: ") err in
  let* err := ask (fun h => syscall_Exec sys h bpath args env)
                  (EvExec bpath args env) in
  match err with
  | None => halt Replaced
  | Some e =>
      let* wr := masterConn_Write sys token_t in
      do* (match snd wr with
           | Some e' => tell (EvLog "error"
                          ("fail to send data to Smaster: " +:+ Error e'))
           | None => ret tt
           end) in
      return_ (Some (errorString
        ("exec " +:+ bpath +:+ " failed: " +:+ Error e)))
  end.

(** The five ways these steps can go: the events and what the caller gets. *)
Inductive HandshakeShape : list Event -> Res (option error) -> Prop :=
| HS_write_failed n e :
    HandshakeShape
      [EvConnWrite token_t (n, Some e)]
      (Val (Some (Errorf_err "failed to pause process: " e)))
| HS_read_failed n data e :
    HandshakeShape
      [EvConnWrite token_t (n, None); EvConnRead 1%Z (data, Some e)]
      (Val (Some (Errorf_err "failed to receive ack from Smaster: " e)))
| HS_security_failed n data e :
    HandshakeShape
      [EvConnWrite token_t (n, None); EvConnRead 1%Z (data, None);
       EvSecurityConfigure (Some e)]
      (Val (Some (Errorf_err "failed to apply security configuration: " e)))
| HS_replaced n data argv0 argv envv :
    HandshakeShape
      [EvConnWrite token_t (n, None); EvConnRead 1%Z (data, None);
       EvSecurityConfigure None; EvExec argv0 argv envv None]
      (Halt Replaced)
| HS_exec_failed n data argv0 argv envv e r logs :
    (logs = [] \/ exists msg, logs = [EvLog "error" msg]) ->
    HandshakeShape
      ([EvConnWrite token_t (n, None); EvConnRead 1%Z (data, None);
        EvSecurityConfigure None; EvExec argv0 argv envv (Some e);
        EvConnWrite token_t r] ++ logs)
      (Val (Some (errorString
         ("exec " +:+ argv0 +:+ " failed: " +:+ Error e)))).


(** The destination calls that one Write makes, in the order made. *)
Definition deliveries {W St : Type}
    (wWrite : W -> list byte -> St -> Res (Z * option error) * St)
    (ws : list W) (p : list byte) (st : St) : list (Delivery W) :=
  snd (snd (Write_loop (logged wWrite) ws p (st, []))).



(** Three destinations known by a number: 0 and 2 take everything, 1 takes
    nothing and reports no error. *)
Definition sample_dest (w : nat) (p : list byte) (st : unit)
  : Res (Z * option error) * unit :=
  match w with
  | 1 => (Val (0%Z, None), st)
  | _ => (Val (len p, None), st)
  end.

(** What a writer stands for when a broadcaster is made from it. *)
Definition flatten (h : gmap nat multiWriter) (ws : list Writer) : list Writer :=
  concat (map (fun w => match w with
                        | MultiW a => match h !! a with
                                      | Some mw => writers mw
                                      | None => []
                                      end
                        | _ => [w]
                        end) ws).

(** Two broadcasters, one for client 0 and one for client 1; the second is
    added to the first with Add. *)
Definition add_broadcaster : M (nat * nat) :=
  let* outer := MultiWriter [ConnW 0] in
  let* inner := MultiWriter [ConnW 1] in
  do* multiWriter_Add ok_sys outer (MultiW inner) in
  ret (outer, inner).

(** The same two broadcasters, the second given to the constructor. *)
Definition construct_from_broadcaster : M (nat * nat) :=
  let* inner := MultiWriter [ConnW 1] in
  let* outer := MultiWriter [ConnW 0; MultiW inner] in
  ret (outer, inner).

(** After [add_broadcaster], client 0 joins the second broadcaster and the
    token [t] is written to the first. *)
Definition write_after_add : M (Z * option error) :=
  let* (outer, inner) := add_broadcaster in
  do* multiWriter_Add ok_sys inner (ConnW 0) in
  Writer_Write ok_sys 3 (MultiW outer) token_t.

Definition write_after_construct : M (Z * option error) :=
  let* (outer, inner) := construct_from_broadcaster in
  do* multiWriter_Add ok_sys inner (ConnW 0) in
  Writer_Write ok_sys 3 (MultiW outer) token_t.

(** Modelled from the spec: the caller of PreStartProcess and
    PostStartProcess is not in process.go. Section 4.4, step 8: on success
    of the handshake wait, persist state as running, then run the
    post-start hooks. *)
Definition controller_startup (sys : Oracle) (engine : EngineOperations)
    (pid : Z) : M (option error) :=
  let* err := PreStartProcess sys engine pid in
  match err with
  | Some e => ret (Some e)
  | None => PostStartProcess sys engine pid
  end.

(** The hooks of a lifecycle point, none when the engine has no hooks. *)
Definition hooks_of (get : Hooks -> list Hook) (engine : EngineOperations)
  : list Hook :=
  match OciHooks engine with
  | Some hooks => get hooks
  | None => []
  end.


(** Every event but the instance lookup. *)
Definition not_lookup (e : Event) : bool :=
  match e with EvInstanceGet _ _ => false | _ => true end.

(** The attach-socket path that PreStartProcess derives from a file value. *)
Definition attach_socket (sys : Oracle) (engine : EngineOperations) (f : File)
  : string :=
  filepath_Join sys (filepath_Dir sys (Path f)) (ContainerID engine +:+ ".sock").

(** [m] only appends events, all of them in [P]. *)
Definition Emits (P : Event -> bool) {A} (m : M A) : Prop :=
  forall w, exists evs,
    snd (m w) = extend w evs /\ Forall (fun e => P e = true) evs.

Definition any_event (e : Event) : bool := true.

(** The same for computations that also change the state: only the trace
    is followed. *)
Definition Grows (P : Event -> bool) {A} (m : M A) : Prop :=
  forall w, exists evs,
    w_trace (snd (m w)) = w_trace w ++ evs /\ Forall (fun e => P e = true) evs.

Definition not_read (e : Event) : bool :=
  match e with EvConnRead _ _ => false | _ => true end.

(** What PreStartProcess returns after its read on the handshake channel
    has answered with the error [err] (nil when [None]). *)
Definition after_read (err : option error) : option error :=
  if is_EOF err then None else err.

(** If [m] reads from the handshake channel, the read is its last event and
    decides what the caller gets. *)
Definition ReadDecides (m : M (option error)) : Prop :=
  forall w, exists pre,
    Forall (fun e => not_read e = true) pre /\
    (w_trace (snd (m w)) = w_trace w ++ pre \/
     exists data err,
       w_trace (snd (m w)) = w_trace w ++ pre ++ [EvConnRead 1%Z (data, err)] /\
       outcome (fst (m w)) = Val (after_read err)).

(** [m] does configuration steps and then, if it gets that far, the
    handshake and exec steps in one of their five shapes. *)
Definition Shaped (m : M (option error)) : Prop :=
  forall w, exists pre tail,
    snd (m w) = extend w (pre ++ tail) /\
    Forall (fun e => is_setup e = true) pre /\
    (tail = [] \/ HandshakeShape tail (outcome (fst (m w)))).

(* ===================================================================== *)
(** ** Vocabulary of the further properties *)
(* ===================================================================== *)

(** A limit of another kind. *)
Definition nproc (soft hard : Z) : POSIXRlimit :=
  {| Type_ := "nproc"; Hard := hard; Soft := soft |}.

(** How StartProcess can end for [engine]: a [return] of an error that is
    not nil, the image replaced, the signal loop of the empty-process mode
    entered, or the panic of [args[0]] on an empty argument list. *)
Definition start_end (engine : EngineOperations) (s : Stop) : Prop :=
  (exists e, s = Return (Some e)) \/
  (s = Replaced /\ EmptyProcess engine = false) \/
  (s = SignalLoop /\ EmptyProcess engine = true) \/
  (s = Panic "index out of range [0] with length 0" /\
   EmptyProcess engine = false /\ Args (OciProcess engine) = []).

(** When [m] stops, it stops in [Q]. *)
Definition HaltsIn (Q : Stop -> Prop) {A} (m : M A) : Prop :=
  forall w s, fst (m w) = Halt s -> Q s.

(** [m] does stop, and in [Q]: it never falls through. *)
Definition EndsIn (Q : Stop -> Prop) {A} (m : M A) : Prop :=
  forall w, exists s, fst (m w) = Halt s /\ Q s.

(** A classification [fatal] of events gives, for a failed step, the error
    it costs. [m] stops at its first failed step: the events before it are
    not failed steps, it is the last event, and [m] returns its error. *)
Definition Stops (fatal : Event -> option error) {A} (m : M A) : Prop :=
  forall w, exists evs,
    w_trace (snd (m w)) = w_trace w ++ evs /\
    (Forall (fun e => fatal e = None) evs \/
     exists pre ev e,
       evs = pre ++ [ev] /\ Forall (fun x => fatal x = None) pre /\
       fatal ev = Some e /\ fst (m w) = Halt (Return (Some e))).

(** The configuration steps of StartProcess that can fail, each with the
    error StartProcess returns for it. *)
Definition fatal_setup (sys : Oracle) (e : Event) : option error :=
  match e with
  | EvChdir _ (Some err) =>
      Some (Errorf_err "can't enter in current working directory: " err)
  | EvRlimitSet _ (Some err) => Some err
  | EvLookPath _ (_, Some err) => Some (errorString (Error err))
  | EvDup3 _ _ _ (Some err) => Some err
  | EvClose _ (Some err) => Some err
  | EvSetsid (Some err) => Some err
  | EvIoctlTIOCSCTTY _ errno =>
      if negb (errno =? 0)%Z
      then Some (errorString
             ("failed to set crontrolling terminal: " +:+ Errno_Error sys errno))
      else None
  | _ => None
  end.

(** The steps of PreStartProcess before its read that can fail. *)
Definition fatal_controller (e : Event) : option error :=
  match e with
  | EvHook _ _ (Some err) => Some err
  | EvCreateSocket _ (Some err) => Some err
  | EvUpdateState _ _ (Some err) => Some err
  | EvConnWrite _ (_, Some err) =>
      Some (Errorf_err "failed to send ACK to start process: " err)
  | _ => None
  end.

(** The events of the post-start hooks [hooks] run on the state [st] with
    the answers [answers]: each hook, followed by a warning when it failed. *)
Fixpoint poststart_events (st : State) (hooks : list Hook)
    (answers : list (option error)) : list Event :=
  match hooks, answers with
  | h :: hs, r :: rs =>
      EvHook h st r
      :: match r with
         | Some e => [EvLog "warning" (Error e)]
         | None => []
         end
      ++ poststart_events st hs rs
  | _, _ => []
  end.

(** The four ways emptyProcess can go: the events and what it returns. *)
Inductive EmptyShape : list Event -> Res (option error) -> Prop :=
| ES_write_failed n e :
    EmptyShape
      [EvConnWrite token_t (n, Some e)]
      (Val (Some (Errorf_err "failed to pause process: " e)))
| ES_read_failed n data e :
    EmptyShape
      [EvConnWrite token_t (n, None); EvConnRead 1%Z (data, Some e)]
      (Val (Some (Errorf_err "failed to receive ack from Smaster: " e)))
| ES_security_failed n data e :
    EmptyShape
      [EvConnWrite token_t (n, None); EvConnRead 1%Z (data, None);
       EvConnClose; EvSignalNotify; EvSecurityConfigure (Some e)]
      (Val (Some (Errorf_err "failed to apply security configuration: " e)))
| ES_signal_loop n data :
    EmptyShape
      [EvConnWrite token_t (n, None); EvConnRead 1%Z (data, None);
       EvConnClose; EvSignalNotify; EvSecurityConfigure None]
      (Halt SignalLoop).

(** [m] emits events of [P] and then, if it gets that far, events and a
    result in the shape [S]. *)
Definition ShapedBy (P : Event -> bool)
    (S : list Event -> Res (option error) -> Prop)
    (m : M (option error)) : Prop :=
  forall w, exists pre tail,
    w_trace (snd (m w)) = w_trace w ++ pre ++ tail /\
    Forall (fun e => P e = true) pre /\
    (tail = [] \/ S tail (outcome (fst (m w)))).

(** An engine in the empty-process mode: no command of its own. *)
Definition empty_engine (cwd : string) : EngineOperations :=
  {| OciProcess := {| Cwd := cwd; Args := []; Env := []; Rlimits := [] |};
     OciHooks := None;
     EmptyProcess := true;
     MasterPts := (-1)%Z;
     SlavePts := (-1)%Z;
     ContainerID := "c1" |}.

(** The steps of PreStartProcess from the creation of the listener on. *)
Definition controller_tail (sys : Oracle) (socket : string) (master : Z)
  : M (option error) :=
  let* err := ask (fun h => unix_CreateSocket sys h socket)
                  (EvCreateSocket socket) in
  do* check id err in
  let* err := updateState sys "created" in
  do* check id err in
  do* tell (EvGoHandleStream master) in
  let* wr := masterConn_Write sys token_s in
  do* check (Errorf_err "failed to send ACK to start process: ") (snd wr) in
  let* rd := masterConn_Read sys in
  if negb (is_EOF (snd rd)) then return_ (snd rd) else return_ None.

(** The four ways these steps can go, for the socket path [socket], the
    state [st] at that point and the stream [master]. *)
Inductive ControllerShape (socket : string) (st : State) (master : Z)
  : list Event -> Res (option error) -> Prop :=
| CS_socket_failed e :
    ControllerShape socket st master
      [EvCreateSocket socket (Some e)]
      (Val (Some e))
| CS_state_failed e :
    ControllerShape socket st master
      [EvCreateSocket socket None; EvUpdateState "created" st (Some e)]
      (Val (Some e))
| CS_ack_failed n e :
    ControllerShape socket st master
      [EvCreateSocket socket None; EvUpdateState "created" st None;
       EvGoHandleStream master; EvConnWrite token_s (n, Some e)]
      (Val (Some (Errorf_err "failed to send ACK to start process: " e)))
| CS_waited n data err :
    ControllerShape socket st master
      [EvCreateSocket socket None; EvUpdateState "created" st None;
       EvGoHandleStream master; EvConnWrite token_s (n, None);
       EvConnRead 1%Z (data, err)]
      (Val (after_read err)).

Definition not_conn_write (e : Event) : bool := negb (is_conn_write e).

(** The stream that PreStartProcess hands to the accept loop: the master
    side of the terminal when there is one, standard input otherwise. *)
Definition master_of (engine : EngineOperations) : Z :=
  if negb (MasterPts engine =? -1)%Z then MasterPts engine else 0%Z.

(** The world in which the lock of the broadcaster [a], which holds [ws],
    is taken. *)
Definition locked (a : nat) (ws : list Writer) (w : World) : World :=
  set_heap (<[a := {| mux := true; writers := ws |}]> (w_heap w)) w.

(** Whether a Write on [x] comes to the broadcaster [b] within [fuel]
    levels of nesting, in the heap [h]. *)
Fixpoint reaches (h : gmap nat multiWriter) (fuel : nat) (x : Writer) (b : nat)
  : bool :=
  match fuel with
  | O => false
  | S fuel' =>
      match x with
      | MultiW a =>
          bool_decide (a = b) ||
          match h !! a with
          | Some mw => existsb (fun y => reaches h fuel' y b) (writers mw)
          | None => false
          end
      | _ => false
      end
  end.

(** Two worlds that differ at most in the broadcaster at [b]. *)
Definition agree_off (b : nat) (w1 w2 : World) : Prop :=
  w_trace w1 = w_trace w2 /\ w_State w1 = w_State w2 /\
  forall a, a <> b -> w_heap w1 !! a = w_heap w2 !! a.



(** Three broadcasters: [inner] for client 1, [outer] for client 0 with
    [inner] added by Add, and one made from [outer] afterwards. Then client
    5 joins [inner], and the token is written to the last one made. *)
Definition write_through_kept_broadcaster : M (Z * option error) :=
  let* (outer, inner) := add_broadcaster in
  let* top := MultiWriter [MultiW outer] in
  do* multiWriter_Add ok_sys inner (ConnW 5) in
  Writer_Write ok_sys 3 (MultiW top) token_t.

(** A heap with one broadcaster, at 0, that holds client 0 and itself. *)
Definition self_nested : World :=
  {| w_trace := [];
     w_State := {| Annotations := None |};
     w_heap := {[ 0%nat := {| mux := false; writers := [ConnW 0; MultiW 0] |} ]} |}.

(** The events of wiring the accepted clients [cs] on the broadcaster [m]:
    each is accepted and gets its input copy task; the first of a session
    also starts the output copy task. *)
Fixpoint wired (master : Z) (m : nat) (first : bool) (cs : list Conn)
  : list Event :=
  match cs with
  | [] => []
  | c :: rest =>
      EvAccept (inl c)
      :: (if first then [EvGoCopyToClients m] else [])
      ++ EvGoCopyFromClient master c
      :: wired master m false rest
  end.

Definition not_exec (e : Event) : bool := negb (is_exec e).

(* ===================================================================== *)
(** ** Worlds and traces *)
(* ===================================================================== *)

Lemma extend_nil w : extend w [] = w.
Proof. destruct w; unfold extend; simpl; by rewrite app_nil_r. Qed.

Lemma emit_extend e w : emit e w = extend w [e].
Proof. reflexivity. Qed.

Lemma extend_extend w a b : extend (extend w a) b = extend w (a ++ b).
Proof. unfold extend; simpl; by rewrite app_assoc. Qed.

Lemma call_outcome (body : M (option error)) w :
  call body w = (outcome (fst (body w)), snd (body w)).
Proof.
  unfold call. destruct (body w) as [[a|[]] w']; reflexivity.
Qed.

(* ===================================================================== *)
(** ** The resource limiter *)
(* ===================================================================== *)

Section Limiter.
Variable sys : Oracle.

Lemma already_set_In resources ty :
  In ty resources -> already_set resources ty = Some ty.
Proof.
  induction resources as [|t rest IH]; simpl; [tauto|].
  intros [->|Hin].
  - by rewrite String.eqb_refl.
  - destruct (String.eqb_spec t ty) as [->|_]; [done|auto].
Qed.

Lemma already_set_not_In resources ty :
  ~ In ty resources -> already_set resources ty = None.
Proof.
  induction resources as [|t rest IH]; simpl; [done|].
  intros Hn. destruct (String.eqb_spec t ty) as [->|_]; [tauto|].
  apply IH; tauto.
Qed.

(** The list up to its first entry whose kind has been seen before. *)
Lemma first_duplicate (rls : list POSIXRlimit) :
  ~ NoDup (map Type_ rls) ->
  exists pre d post,
    rls = pre ++ d :: post /\ NoDup (map Type_ pre) /\
    In (Type_ d) (map Type_ pre).
Proof.
  induction rls as [|x l IH] using rev_ind; simpl.
  - intros H; destruct H; constructor.
  - intros Hnd.
    destruct (decide (NoDup (map Type_ l))) as [Hl|Hl].
    + exists l, x, []. repeat split; [done|].
      destruct (in_dec String.string_dec (Type_ x) (map Type_ l)) as [|Hn]; [done|].
      destruct Hnd. rewrite map_app; simpl.
      apply NoDup_app. repeat split; [done| |apply NoDup_singleton].
      intros y Hy Hy'. apply list_elem_of_In in Hy.
      apply list_elem_of_singleton in Hy'. by subst.
    + destruct (IH Hl) as (pre & d & post & -> & Hpre & Hin).
      exists pre, d, (post ++ [x]). by rewrite <- app_assoc.
Qed.

(** The loop on a list whose first repeated kind is that of [d]: either
    every call up to and including [d] succeeds and the loop stops with the
    duplicate error, or it stops at the first refused call. *)
Lemma setRlimit_loop_dup pre d post :
  forall resources w,
    NoDup (resources ++ map Type_ pre) ->
    In (Type_ d) (resources ++ map Type_ pre) ->
    (setRlimit_loop sys (pre ++ d :: post) resources w
       = (Halt (Return (Some (errorString (Type_ d +:+ " was already set")))),
          extend w (set_ok (pre ++ [d]))) /\
     forall done x rest,
       pre ++ [d] = done ++ x :: rest -> set_answer sys w done x = None)
    \/ exists done x rest e,
         pre ++ [d] = done ++ x :: rest /\
         set_answer sys w done x = Some e /\
         setRlimit_loop sys (pre ++ d :: post) resources w
           = (Halt (Return (Some e)),
              extend w (set_ok done ++ [EvRlimitSet x (Some e)])).
Proof.
  induction pre as [|x pre IH]; intros resources w Hnd Hin; simpl in *.
  - rewrite app_nil_r in Hin.
    unfold bind, ask.
    destruct (rlimit_Set sys (w_trace w) (Type_ d) (Soft d) (Hard d)) as [e|] eqn:Hset.
    + right. exists [], d, [], e. unfold set_answer; simpl.
      rewrite app_nil_r. by repeat split.
    + left. simpl. rewrite (already_set_In _ _ Hin). split; [done|].
      intros [|y done] z rest Heq; simplify_eq/=.
      * unfold set_answer; simpl. by rewrite app_nil_r.
      * by destruct done.
  - unfold bind, ask.
    destruct (rlimit_Set sys (w_trace w) (Type_ x) (Soft x) (Hard x)) as [e|] eqn:Hset.
    + right. exists [], x, (pre ++ [d]), e. unfold set_answer; simpl.
      rewrite app_nil_r. by repeat split.
    + simpl. rewrite already_set_not_In.
      2:{ apply NoDup_app in Hnd as (_ & Hdis & _).
          intros Hx. apply (Hdis (Type_ x)); [by apply list_elem_of_In|left]. }
      destruct (IH (resources ++ [Type_ x]) (emit (EvRlimitSet x None) w))
        as [[Heq Hall]|(done & y & rest & e & Hsplit & Hans & Heq)].
      * by rewrite <- app_assoc.
      * by rewrite <- app_assoc.
      * left. rewrite Heq, emit_extend, extend_extend. split; [done|].
        intros [|y done] z rest Hsplit; simpl in Hsplit;
          injection Hsplit as -> Hsplit.
        -- unfold set_answer; simpl. by rewrite app_nil_r.
        -- specialize (Hall done z rest Hsplit). unfold set_answer in *.
           simpl in *. by rewrite <- app_assoc in Hall.
      * right. exists (x :: done), y, rest, e. split; [by rewrite Hsplit|].
        split.
        -- unfold set_answer in *. simpl in *. by rewrite <- app_assoc in Hans.
        -- rewrite Heq, emit_extend, extend_extend. reflexivity.
Qed.

End Limiter.

(** C7 (amended). On a list in which some kind occurs twice, with [d] the
    first entry whose kind occurred before it, setRlimit returns an error
    and calls the limit-set operation on no entry past [d]. The calls are
    made in list order and [d] itself is applied before the repetition is
    seen. When every call up to and including [d] succeeds, the error is
    "<kind of d> was already set". When one of these calls is refused,
    setRlimit stops at that entry and returns the error of the operation.
    Nothing but limit-set calls is done: what was applied stays applied. *)
Theorem setRlimit_duplicate_kind (sys : Oracle) (rls : list POSIXRlimit) (w : World) :
  ~ NoDup (map Type_ rls) ->
  exists pre d post,
    rls = pre ++ d :: post /\ NoDup (map Type_ pre) /\
    In (Type_ d) (map Type_ pre) /\
    ((setRlimit sys rls w
        = (Val (Some (errorString (Type_ d +:+ " was already set"))),
           extend w (set_ok (pre ++ [d]))) /\
      forall done x rest,
        pre ++ [d] = done ++ x :: rest -> set_answer sys w done x = None)
     \/ exists done x rest e,
          pre ++ [d] = done ++ x :: rest /\
          set_answer sys w done x = Some e /\
          setRlimit sys rls w
            = (Val (Some e), extend w (set_ok done ++ [EvRlimitSet x (Some e)]))).
Proof.
  intros Hdup.
  destruct (first_duplicate rls Hdup) as (pre & d & post & -> & Hnd & Hin).
  exists pre, d, post. repeat split; [done..|].
  unfold setRlimit. rewrite call_outcome.
  destruct (setRlimit_loop_dup sys pre d post [] w Hnd Hin)
    as [[Heq Hall]|(done & x & rest & e & Hsplit & Hans & Heq)].
  - left. by rewrite Heq.
  - right. exists done, x, rest, e. by rewrite Heq.
Qed.

(** Two entries of kind nofile, every call granted: the second entry is
    applied and the error names nofile. *)
Lemma setRlimit_duplicate_kind_witness :
  exists pre d post,
    [nofile 5 10; nofile 6 12] = pre ++ d :: post /\ NoDup (map Type_ pre) /\
    In (Type_ d) (map Type_ pre) /\
    ((setRlimit ok_sys [nofile 5 10; nofile 6 12] w0
        = (Val (Some (errorString (Type_ d +:+ " was already set"))),
           extend w0 (set_ok (pre ++ [d]))) /\
      forall done x rest,
        pre ++ [d] = done ++ x :: rest -> set_answer ok_sys w0 done x = None)
     \/ exists done x rest e,
          pre ++ [d] = done ++ x :: rest /\
          set_answer ok_sys w0 done x = Some e /\
          setRlimit ok_sys [nofile 5 10; nofile 6 12] w0
            = (Val (Some e), extend w0 (set_ok done ++ [EvRlimitSet x (Some e)]))).
Proof.
  apply (setRlimit_duplicate_kind ok_sys [nofile 5 10; nofile 6 12] w0).
  intros H. inversion H as [|? ? Hn _]; subst. apply Hn. left.
Defined.

(** C7 as stated fails: the list has two entries of kind nofile, the
    limit-set operation is refused on the second, and the error returned is
    that of the operation; it does not name the kind. *)
Lemma setRlimit_duplicate_refused :
  ~ NoDup (map Type_ [nofile 10 10; nofile 20 20]) /\
  setRlimit second_set_refused [nofile 10 10; nofile 20 20] w0
    = (Val (Some (errorString "operation not permitted")),
       extend w0 [EvRlimitSet (nofile 10 10) None;
                  EvRlimitSet (nofile 20 20)
                    (Some (errorString "operation not permitted"))]).
Proof.
  split; [|reflexivity].
  intros H. inversion H as [|? ? Hn _]; subst. apply Hn. left.
Qed.

(* ===================================================================== *)
(** ** The working directory *)
(* ===================================================================== *)

(** C8 (amended). When the working directory of the spec is not empty and
    not absolute, StartProcess returns "cwd property must be an absolute
    path" and has done nothing: no chdir, no limit, no handshake. *)
Theorem StartProcess_relative_cwd (sys : Oracle) (engine : EngineOperations) (w : World) :
  Cwd (OciProcess engine) <> "" ->
  filepath_IsAbs (Cwd (OciProcess engine)) = false ->
  StartProcess sys engine w
    = (Val (Some (errorString "cwd property must be an absolute path")), w).
Proof.
  intros Hne Habs. unfold StartProcess, call, bind.
  destruct (String.eqb_spec (Cwd (OciProcess engine)) "") as [|_]; [done|].
  by rewrite Habs.
Qed.

Lemma StartProcess_relative_cwd_witness :
  StartProcess ok_sys (true_engine "work/dir" []) w0
    = (Val (Some (errorString "cwd property must be an absolute path")), w0).
Proof.
  apply (StartProcess_relative_cwd ok_sys (true_engine "work/dir" []) w0).
  - simpl. discriminate.
  - reflexivity.
Defined.

(** C8 as stated fails: the empty working directory is not an absolute
    path, and StartProcess does not reject it; it goes on to [/] and, every
    later step succeeding, to exec. *)
Lemma StartProcess_empty_cwd_not_rejected :
  filepath_IsAbs (Cwd (OciProcess (true_engine "" []))) = false /\
  StartProcess ok_sys (true_engine "" []) w0
    = (Halt Replaced,
       extend w0 [EvChdir "/" None;
                  EvLookPath "/bin/true" ("/bin/true", None);
                  EvConnWrite token_t (1%Z, None);
                  EvConnRead 1%Z ([x73], None);
                  EvSecurityConfigure None;
                  EvExec "/bin/true" ["/bin/true"] [] None]).
Proof. split; reflexivity. Qed.

(* ===================================================================== *)
(** ** What a computation appends to the trace *)
(* ===================================================================== *)

Section EmitsRules.
Context (P : Event -> bool).

Lemma Emits_ret {A} (a : A) : Emits P (ret a).
Proof. intros w. exists []. by rewrite extend_nil. Qed.

Lemma Emits_halt {A} (s : Stop) : Emits P (@halt A s).
Proof. intros w. exists []. by rewrite extend_nil. Qed.

Lemma Emits_return {A} (err : option error) : Emits P (@return_ A err).
Proof. apply Emits_halt. Qed.

Lemma Emits_tell (e : Event) : P e = true -> Emits P (tell e).
Proof. intros He w. exists [e]. split; [done|]. by constructor. Qed.

Lemma Emits_ask {A} (f : list Event -> A) (ev : A -> Event) :
  (forall r, P (ev r) = true) -> Emits P (ask f ev).
Proof.
  intros He w. exists [ev (f (w_trace w))]. split; [done|]. by constructor.
Qed.

Lemma Emits_bind {A B} (m : M A) (k : A -> M B) :
  Emits P m -> (forall a, Emits P (k a)) -> Emits P (bind m k).
Proof.
  intros Hm Hk w. unfold bind.
  destruct (Hm w) as (evs & Hw & Hevs).
  destruct (m w) as [[a|s] w1]; simpl in Hw; subst w1.
  - destruct (Hk a (extend w evs)) as (evs' & Hw' & Hevs').
    exists (evs ++ evs'). rewrite Hw', extend_extend.
    split; [done|]. by apply Forall_app.
  - by exists evs.
Qed.

Lemma Emits_call (body : M (option error)) : Emits P body -> Emits P (call body).
Proof.
  intros Hm w. rewrite call_outcome. simpl. apply Hm.
Qed.

Lemma Emits_check (wrap : error -> error) (err : option error) :
  Emits P (check wrap err).
Proof. destruct err; [apply Emits_return|apply Emits_ret]. Qed.

End EmitsRules.

Lemma Emits_get_State P : Emits P get_State.
Proof. intros w. exists []. by rewrite extend_nil. Qed.

Lemma bind_ask_first {A B} P (f : list Event -> A) (ev : A -> Event)
    (k : A -> M B) w :
  (forall a, Emits P (k a)) ->
  exists evs,
    snd (bind (ask f ev) k w) = extend w (ev (f (w_trace w)) :: evs) /\
    Forall (fun e => P e = true) evs.
Proof.
  intros Hk. unfold bind, ask.
  destruct (Hk (f (w_trace w)) (emit (ev (f (w_trace w))) w)) as (evs & Hw & Hevs).
  exists evs. by rewrite Hw, emit_extend, extend_extend.
Qed.

Ltac emits_step :=
  first
    [ apply Emits_ret
    | apply Emits_return
    | apply Emits_halt
    | apply Emits_check
    | apply Emits_get_State
    | apply Emits_tell; reflexivity
    | apply Emits_ask; intros; reflexivity
    | apply Emits_call
    | apply Emits_bind; [|intros]
    | match goal with
      | |- Emits _ (if ?b then _ else _) => destruct b
      | |- Emits _ (match ?x with _ => _ end) => destruct x
      end ].

Ltac emits := repeat emits_step.

Section ChildTraces.
Variable sys : Oracle.

Lemma Emits_setRlimit_loop P rls : forall resources,
  (forall rl r, P (EvRlimitSet rl r) = true) ->
  Emits P (setRlimit_loop sys rls resources).
Proof.
  induction rls as [|rl rest IH]; intros resources HP; simpl; [emits|].
  apply Emits_bind; [apply Emits_ask; intros; apply HP|intros err].
  apply Emits_bind; [emits|intros _].
  destruct (already_set resources (Type_ rl)); [emits|by apply IH].
Qed.

Lemma Emits_setRlimit P rls :
  (forall rl r, P (EvRlimitSet rl r) = true) ->
  Emits P (setRlimit sys rls).
Proof. intros HP. apply Emits_call. by apply Emits_setRlimit_loop. Qed.

Lemma Emits_setenv_PATH P env :
  (forall k v, P (EvSetenv k v) = true) ->
  Emits P (setenv_PATH env).
Proof.
  intros HP. induction env as [|e rest IH]; simpl; [emits|].
  apply Emits_bind; [|intros _; apply IH].
  destruct (strings_HasPrefix e "PATH="); [apply Emits_tell, HP|emits].
Qed.

Lemma Emits_attach_terminal_setup engine :
  Emits is_setup (attach_terminal sys engine).
Proof. unfold attach_terminal. emits. Qed.

Lemma Emits_attach_terminal_any engine :
  Emits any_event (attach_terminal sys engine).
Proof. unfold attach_terminal. emits. Qed.

Lemma Emits_emptyProcess engine : Emits any_event (emptyProcess sys engine).
Proof. unfold emptyProcess, masterConn_Write, masterConn_Read. emits. Qed.

Lemma Emits_handshake_and_exec spec bpath args env :
  Emits any_event (handshake_and_exec sys spec bpath args env).
Proof. unfold handshake_and_exec, masterConn_Write, masterConn_Read. emits. Qed.

(** The handshake and exec steps go one of the five ways. *)
Lemma handshake_and_exec_shape spec bpath args env w :
  exists tail,
    snd (handshake_and_exec sys spec bpath args env w) = extend w tail /\
    HandshakeShape tail (outcome (fst (handshake_and_exec sys spec bpath args env w))).
Proof.
  unfold handshake_and_exec, masterConn_Write, masterConn_Read, bind, ask, check,
    return_, halt, ret, tell.
  destruct (conn_Write sys (w_trace w) token_t) as [n [e|]]; simpl.
  { eexists; split; [reflexivity|]. constructor. }
  destruct (conn_Read sys _ 1%Z) as [data [e|]]; simpl.
  { eexists. rewrite !emit_extend, !extend_extend. split; [reflexivity|].
    constructor. }
  destruct (security_Configure sys _ _) as [e|]; simpl.
  { eexists. rewrite !emit_extend, !extend_extend. split; [reflexivity|].
    constructor. }
  destruct (syscall_Exec sys _ bpath args env) as [e|]; simpl.
  2:{ eexists. rewrite !emit_extend, !extend_extend. split; [reflexivity|].
      constructor. }
  destruct (conn_Write sys _ token_t) as [n2 [e2|]]; simpl.
  - eexists. rewrite !emit_extend, !extend_extend. split; [reflexivity|]. simpl.
    apply (HS_exec_failed n data bpath args env e (n2, Some e2)
             [EvLog "error" ("fail to send data to Smaster: " +:+ Error e2)]).
    right. by eexists.
  - eexists. rewrite !emit_extend, !extend_extend. split; [reflexivity|]. simpl.
    apply (HS_exec_failed n data bpath args env e (n2, None) []). by left.
Qed.

Lemma Shaped_handshake_and_exec spec bpath args env :
  Shaped (handshake_and_exec sys spec bpath args env).
Proof.
  intros w. destruct (handshake_and_exec_shape spec bpath args env w) as (tail & Hw & Hs).
  exists [], tail. split; [done|]. split; [constructor|by right].
Qed.

Lemma Shaped_bind {A} (m : M A) (k : A -> M (option error)) :
  Emits is_setup m -> (forall a, Shaped (k a)) -> Shaped (bind m k).
Proof.
  intros Hm Hk w. unfold bind.
  destruct (Hm w) as (evs & Hw & Hevs).
  destruct (m w) as [[a|s] w1]; simpl in Hw; subst w1.
  - destruct (Hk a (extend w evs)) as (pre & tail & Hw' & Hpre & Htail).
    exists (evs ++ pre), tail. rewrite Hw', extend_extend, app_assoc.
    split; [done|]. split; [by apply Forall_app|done].
  - exists evs, []. rewrite app_nil_r. split; [done|]. split; [done|by left].
Qed.

Lemma Shaped_halt (s : Stop) : Shaped (halt s).
Proof.
  intros w. exists [], []. simpl. rewrite extend_nil.
  split; [done|]. split; [constructor|by left].
Qed.

Lemma outcome_idem r : outcome (outcome r) = outcome r.
Proof. by destruct r as [a|[]]. Qed.

Lemma outcome_call (body : M (option error)) w :
  outcome (fst (call body w)) = fst (call body w).
Proof. rewrite call_outcome. simpl. apply outcome_idem. Qed.

Lemma Shaped_call (body : M (option error)) : Shaped body -> Shaped (call body).
Proof.
  intros Hm w. rewrite call_outcome. simpl. rewrite outcome_idem. apply Hm.
Qed.

(** What follows the chdir in StartProcess only appends events. *)
Lemma Emits_after_chdir engine (err : option error) :
  Emits any_event
    (do* check (Errorf_err "can't enter in current working directory: ") err in
     let* err := setRlimit sys (Rlimits (OciProcess engine)) in
     do* check id err in
     if EmptyProcess engine then
       let* err := emptyProcess sys engine in return_ err
     else
       do* setenv_PATH (Env (OciProcess engine)) in
       match Args (OciProcess engine) with
       | [] => halt (Panic "index out of range [0] with length 0")
       | arg0 :: rest =>
           let* (bpath, err) := ask (fun h => exec_LookPath sys h arg0)
                                    (EvLookPath arg0) in
           do* check (fun e => errorString (Error e)) err in
           do* (if negb (MasterPts engine =? -1)%Z
                then attach_terminal sys engine
                else ret tt) in
           handshake_and_exec sys (OciSpec (with_Args (bpath :: rest) engine))
             bpath (bpath :: rest) (Env (OciProcess engine))
       end).
Proof.
  apply Emits_bind; [emits|intros _].
  apply Emits_bind; [by apply Emits_setRlimit|intros err'].
  apply Emits_bind; [emits|intros _].
  destruct (EmptyProcess engine).
  { apply Emits_bind; [apply Emits_emptyProcess|intros; emits]. }
  apply Emits_bind; [by apply Emits_setenv_PATH|intros _].
  destruct (Args (OciProcess engine)) as [|arg0 rest]; [emits|].
  apply Emits_bind; [emits|intros [bpath err'']].
  apply Emits_bind; [emits|intros _].
  apply Emits_bind; [|intros _; apply Emits_handshake_and_exec].
  destruct (negb _); [apply Emits_attach_terminal_any|emits].
Qed.

(** StartProcess outside the empty-process mode: configuration events, then
    one of the five shapes. *)
Lemma StartProcess_shaped engine :
  EmptyProcess engine = false -> Shaped (StartProcess sys engine).
Proof.
  intros Hmode. unfold StartProcess. apply Shaped_call.
  apply Shaped_bind; [emits|intros _].
  apply Shaped_bind; [emits|intros err].
  apply Shaped_bind; [emits|intros _].
  apply Shaped_bind; [by apply Emits_setRlimit|intros err'].
  apply Shaped_bind; [emits|intros _].
  rewrite Hmode.
  apply Shaped_bind; [by apply Emits_setenv_PATH|intros _].
  destruct (Args (OciProcess engine)) as [|arg0 rest]; [apply Shaped_halt|].
  apply Shaped_bind; [emits|intros [bpath err'']].
  apply Shaped_bind; [emits|intros _].
  apply Shaped_bind.
  { destruct (negb _); [apply Emits_attach_terminal_setup|emits]. }
  intros _.
  exact (Shaped_handshake_and_exec (OciSpec (with_Args (bpath :: rest) engine))
           bpath (bpath :: rest) (Env (OciProcess engine))).
Qed.

End ChildTraces.

(* ===================================================================== *)
(** ** The child runner *)
(* ===================================================================== *)

Lemma split_in_tail pre tail : forall tr1 e tr2,
  Forall (fun x => is_setup x = true) pre ->
  is_setup e = false ->
  pre ++ tail = tr1 ++ e :: tr2 ->
  exists s1, tr1 = pre ++ s1 /\ tail = s1 ++ e :: tr2.
Proof.
  induction pre as [|x pre IH]; intros tr1 e tr2 Hpre He Heq; simpl in *.
  - by exists tr1.
  - inversion Hpre as [|? ? Hx Hpre']; subst.
    destruct tr1 as [|y tr1]; simpl in Heq; injection Heq as -> Heq.
    + congruence.
    + destruct (IH tr1 e tr2 Hpre' He Heq) as (s1 & -> & ->). by exists s1.
Qed.

Lemma setup_not_handshake pre :
  Forall (fun x => is_setup x = true) pre ->
  Forall (fun e => is_security e = false /\ is_exec e = false) pre.
Proof.
  intros H. eapply Forall_impl; [exact H|].
  intros e He. by destruct e.
Qed.

Ltac split_tail :=
  repeat match goal with
         | H : _ :: _ = ?s ++ _ :: _ |- _ => is_var s; destruct s; simplify_eq/=
         | H : [] = ?s ++ _ :: _ |- _ => is_var s; destruct s; simplify_eq/=
         end.

Ltac invert_shape H :=
  inversion H as [| | | |? ? ? ? ? ? ? ? Hlogs]; subst;
  try destruct Hlogs as [->|[? ->]];
  split_tail.

Ltac invert_Forall :=
  repeat match goal with
         | H : Forall _ (_ :: _) |- _ => inversion H; clear H; subst; simpl in *
         end.

(** C2. Outside the empty-process mode, an exec event is preceded by a
    pause-notify token written without error and, after it, a resume-ack
    read without error. If the first write on the handshake channel fails,
    or if the read fails, StartProcess returns the corresponding error and
    the run has neither applied the security policy nor attempted exec. *)
Theorem StartProcess_exec_after_handshake (sys : Oracle) (engine : EngineOperations) (w : World) :
  EmptyProcess engine = false ->
  exists evs,
    w_trace (snd (StartProcess sys engine w)) = w_trace w ++ evs /\
    (forall tr1 e tr2,
       evs = tr1 ++ e :: tr2 -> is_exec e = true ->
       exists t0 e1 t1 e2 t2,
         tr1 = t0 ++ e1 :: t1 ++ e2 :: t2 /\
         pause_sent e1 /\ resume_received e2) /\
    (forall tr1 p n err tr2,
       evs = tr1 ++ EvConnWrite p (n, Some err) :: tr2 ->
       Forall (fun e => is_conn_write e = false) tr1 ->
       fst (StartProcess sys engine w)
         = Val (Some (Errorf_err "failed to pause process: " err)) /\
       Forall (fun e => is_security e = false /\ is_exec e = false) evs) /\
    (forall tr1 k data err tr2,
       evs = tr1 ++ EvConnRead k (data, Some err) :: tr2 ->
       fst (StartProcess sys engine w)
         = Val (Some (Errorf_err "failed to receive ack from Smaster: " err)) /\
       Forall (fun e => is_security e = false /\ is_exec e = false) evs).
Proof.
  intros Hmode.
  destruct (StartProcess_shaped sys engine Hmode w)
    as (pre & tail & Hw & Hpre & Htail).
  assert (Hout : outcome (fst (StartProcess sys engine w))
                 = fst (StartProcess sys engine w)).
  { unfold StartProcess. apply outcome_call. }
  rewrite Hout in Htail. clear Hout.
  exists (pre ++ tail). split; [by rewrite Hw|]. clear Hw.
  pose proof (setup_not_handshake pre Hpre) as Hquiet.
  split; [|split; [intros tr1 p n err tr2 H H0; split
                  |intros tr1 k data err tr2 H; split]].
  - intros tr1 e tr2 Heq He.
    destruct (split_in_tail pre tail tr1 e tr2 Hpre) as (s1 & -> & ->);
      [by destruct e|done|]. clear Heq.
    destruct Htail as [Hnil|Hshape]; [by destruct s1|].
    invert_shape Hshape.
    all: eexists pre, _, [], _, _; (split; [reflexivity|]);
      split; eexists; reflexivity.
  - destruct (split_in_tail pre tail tr1 (EvConnWrite p (n, Some err)) tr2 Hpre)
      as (s1 & -> & ->); [done..|].
    destruct Htail as [Hnil|Hshape]; [by destruct s1|].
    apply Forall_app in H0 as [_ Hs1w].
    invert_shape Hshape; invert_Forall; done.
  - destruct (split_in_tail pre tail tr1 (EvConnWrite p (n, Some err)) tr2 Hpre)
      as (s1 & -> & ->); [done..|].
    destruct Htail as [Hnil|Hshape]; [by destruct s1|].
    apply Forall_app in H0 as [_ Hs1w].
    apply Forall_app. split; [done|].
    invert_shape Hshape; invert_Forall; try done.
    all: by repeat constructor.
  - destruct (split_in_tail pre tail tr1 (EvConnRead k (data, Some err)) tr2 Hpre)
      as (s1 & -> & ->); [done..|].
    destruct Htail as [Hnil|Hshape]; [by destruct s1|].
    invert_shape Hshape; done.
  - destruct (split_in_tail pre tail tr1 (EvConnRead k (data, Some err)) tr2 Hpre)
      as (s1 & -> & ->); [done..|].
    destruct Htail as [Hnil|Hshape]; [by destruct s1|].
    apply Forall_app. split; [done|].
    invert_shape Hshape.
    all: by repeat constructor.
Qed.

Lemma StartProcess_exec_after_handshake_witness :
  exists evs,
    w_trace (snd (StartProcess ok_sys (true_engine "/" []) w0)) = w_trace w0 ++ evs /\
    (forall tr1 e tr2,
       evs = tr1 ++ e :: tr2 -> is_exec e = true ->
       exists t0 e1 t1 e2 t2,
         tr1 = t0 ++ e1 :: t1 ++ e2 :: t2 /\
         pause_sent e1 /\ resume_received e2) /\
    (forall tr1 p n err tr2,
       evs = tr1 ++ EvConnWrite p (n, Some err) :: tr2 ->
       Forall (fun e => is_conn_write e = false) tr1 ->
       fst (StartProcess ok_sys (true_engine "/" []) w0)
         = Val (Some (Errorf_err "failed to pause process: " err)) /\
       Forall (fun e => is_security e = false /\ is_exec e = false) evs) /\
    (forall tr1 k data err tr2,
       evs = tr1 ++ EvConnRead k (data, Some err) :: tr2 ->
       fst (StartProcess ok_sys (true_engine "/" []) w0)
         = Val (Some (Errorf_err "failed to receive ack from Smaster: " err)) /\
       Forall (fun e => is_security e = false /\ is_exec e = false) evs).
Proof.
  apply (StartProcess_exec_after_handshake ok_sys (true_engine "/" []) w0).
  reflexivity.
Defined.

(** The run of the witness does reach exec, after the two handshake steps. *)
Example StartProcess_true_run :
  StartProcess ok_sys (true_engine "/" []) w0
    = (Halt Replaced,
       extend w0 [EvChdir "/" None;
                  EvLookPath "/bin/true" ("/bin/true", None);
                  EvConnWrite token_t (1%Z, None);
                  EvConnRead 1%Z ([x73], None);
                  EvSecurityConfigure None;
                  EvExec "/bin/true" ["/bin/true"] [] None]).
Proof. reflexivity. Qed.

Lemma bind_ext {A B} (m1 m2 : M A) (k1 k2 : A -> M B) w :
  m1 w = m2 w -> (forall a w', k1 a w' = k2 a w') -> bind m1 k1 w = bind m2 k2 w.
Proof.
  intros Hm Hk. unfold bind. rewrite Hm. destruct (m2 w) as [[a|s] w']; [apply Hk|done].
Qed.

Lemma call_ext (b1 b2 : M (option error)) w : b1 w = b2 w -> call b1 w = call b2 w.
Proof. unfold call. by intros ->. Qed.

(** A view of the spec that the security policy does not tell from the
    spec itself changes nothing in a run. *)
Lemma StartProcess_security_shown (view : Spec -> Spec) (sys : Oracle)
    (engine : EngineOperations) (w : World) :
  (forall h spec, security_Configure sys h (view spec) = security_Configure sys h spec) ->
  StartProcess (security_shown view sys) engine w = StartProcess sys engine w.
Proof.
  intros Hv. unfold StartProcess. apply call_ext. cbv zeta.
  do 5 (apply bind_ext; [reflexivity|intros ? ?]).
  destruct (EmptyProcess engine).
  - apply bind_ext; [|reflexivity]. unfold emptyProcess. apply call_ext.
    do 6 (apply bind_ext; [reflexivity|intros ? ?]).
    apply bind_ext; [|reflexivity]. unfold ask. simpl. by rewrite Hv.
  - apply bind_ext; [reflexivity|intros ? ?].
    destruct (Args (OciProcess engine)) as [|arg0 rest]; [reflexivity|].
    apply bind_ext; [reflexivity|intros [bpath err] ?].
    do 6 (apply bind_ext; [reflexivity|intros ? ?]).
    apply bind_ext; [|reflexivity]. unfold ask. simpl. by rewrite Hv.
Qed.

(** C9. An empty working directory is not rejected: its first step is the
    chdir to [/], and StartProcess does what it does for the working
    directory [/]. The one thing that still tells the two runs apart is the
    spec itself, which the security policy is handed with the field as it
    was written: the run is the run for [/] with the policy shown the empty
    field, and it is the run for [/] whenever the policy does not tell a
    spec from the same spec with an empty working directory. *)
Theorem StartProcess_empty_cwd (sys : Oracle) (engine : EngineOperations) (w : World) :
  Cwd (OciProcess engine) = "" ->
  StartProcess sys engine w
    = StartProcess (security_shown (spec_with_Cwd "") sys) (with_Cwd "/" engine) w /\
  ((forall h spec,
      security_Configure sys h (spec_with_Cwd "" spec) = security_Configure sys h spec) ->
   StartProcess sys engine w = StartProcess sys (with_Cwd "/" engine) w) /\
  exists r evs,
    w_trace (snd (StartProcess sys engine w)) = w_trace w ++ EvChdir "/" r :: evs.
Proof.
  intros Hcwd.
  assert (Hshown : StartProcess sys engine w
                   = StartProcess (security_shown (spec_with_Cwd "") sys)
                       (with_Cwd "/" engine) w).
  { destruct engine as [[cwd args env rls] hooks mode mpts spts id].
    simpl in Hcwd. subst cwd. reflexivity. }
  split; [exact Hshown|]. split.
  - intros Hv. rewrite Hshown. by apply StartProcess_security_shown.
  - unfold StartProcess. rewrite call_outcome. simpl snd. rewrite Hcwd. simpl.
    unfold bind at 1. simpl.
    match goal with
    | |- context [bind (ask ?f ?ev) ?k ?w0] =>
        destruct (bind_ask_first any_event f ev k w0) as (evs & Hw & _);
          [intros err; apply (Emits_after_chdir sys engine err)|]
    end.
    rewrite Hw. simpl. eauto.
Qed.

Lemma StartProcess_empty_cwd_witness :
  StartProcess ok_sys (true_engine "" []) w0
    = StartProcess (security_shown (spec_with_Cwd "") ok_sys)
        (with_Cwd "/" (true_engine "" [])) w0 /\
  ((forall h spec,
      security_Configure ok_sys h (spec_with_Cwd "" spec)
        = security_Configure ok_sys h spec) ->
   StartProcess ok_sys (true_engine "" []) w0
     = StartProcess ok_sys (with_Cwd "/" (true_engine "" [])) w0) /\
  exists r evs,
    w_trace (snd (StartProcess ok_sys (true_engine "" []) w0))
      = w_trace w0 ++ EvChdir "/" r :: evs.
Proof.
  apply (StartProcess_empty_cwd ok_sys (true_engine "" []) w0). reflexivity.
Defined.

(** The policy is handed the spec with the field as it was written: one
    that refuses a spec without a working directory refuses the empty
    field, and lets the same spec with [/] through to exec. *)
Example StartProcess_policy_sees_empty_cwd :
  fst (StartProcess cwd_required (true_engine "" []) w0)
    = Val (Some (errorString
        "failed to apply security configuration: cwd is not set")) /\
  fst (StartProcess cwd_required (with_Cwd "/" (true_engine "" [])) w0)
    = Halt Replaced.
Proof. split; reflexivity. Qed.

(** C6 fails on the code. When the security policy cannot be applied,
    StartProcess returns the error at once: the only token written on the
    handshake channel is the pause-notify, none follows the failure. The
    exec failure path, next to it, does write the extra token. *)
Theorem StartProcess_security_failure_unreported :
  StartProcess security_refused (true_engine "/" []) w0
    = (Val (Some (errorString
         "failed to apply security configuration: seccomp: denied")),
       extend w0 [EvChdir "/" None;
                  EvLookPath "/bin/true" ("/bin/true", None);
                  EvConnWrite token_t (1%Z, None);
                  EvConnRead 1%Z ([x73], None);
                  EvSecurityConfigure (Some (errorString "seccomp: denied"))]) /\
  StartProcess exec_refused (true_engine "/" []) w0
    = (Val (Some (errorString "exec /bin/true failed: exec format error")),
       extend w0 [EvChdir "/" None;
                  EvLookPath "/bin/true" ("/bin/true", None);
                  EvConnWrite token_t (1%Z, None);
                  EvConnRead 1%Z ([x73], None);
                  EvSecurityConfigure None;
                  EvExec "/bin/true" ["/bin/true"] []
                    (Some (errorString "exec format error"));
                  EvConnWrite token_t (1%Z, None)]).
Proof. split; reflexivity. Qed.

(** The security policy is handed the spec as it is at that moment, with
    the looked-up path stored in place of the first argument: a policy that
    refuses /usr/bin/true refuses the command [true]. No token follows. *)
Example StartProcess_policy_sees_stored_path :
  StartProcess usr_bin_true_refused named_engine w0
    = (Val (Some (errorString
         "failed to apply security configuration: seccomp: denied")),
       extend w0 [EvChdir "/" None;
                  EvLookPath "true" ("/usr/bin/true", None);
                  EvConnWrite token_t (1%Z, None);
                  EvConnRead 1%Z ([x73], None);
                  EvSecurityConfigure (Some (errorString "seccomp: denied"))]).
Proof. reflexivity. Qed.

(* ===================================================================== *)
(** ** The parent controller *)
(* ===================================================================== *)

Lemma split_after (P : Event -> bool) pre tail : forall tr1 e tr2,
  Forall (fun x => P x = true) pre ->
  P e = false ->
  pre ++ tail = tr1 ++ e :: tr2 ->
  exists s1, tr1 = pre ++ s1 /\ tail = s1 ++ e :: tr2.
Proof.
  induction pre as [|x pre IH]; intros tr1 e tr2 Hpre He Heq; simpl in *.
  - by exists tr1.
  - inversion Hpre as [|? ? Hx Hpre']; subst.
    destruct tr1 as [|y tr1]; simpl in Heq; injection Heq as -> Heq.
    + congruence.
    + destruct (IH tr1 e tr2 Hpre' He Heq) as (s1 & -> & ->). by exists s1.
Qed.

Lemma head_of_split (P : Event -> bool) e' rest s1 e tr2 :
  Forall (fun x => P x = true) rest ->
  P e = false ->
  e' :: rest = s1 ++ e :: tr2 ->
  s1 = [] /\ e' = e /\ rest = tr2.
Proof.
  intros Hrest He Heq. destruct s1 as [|x s1]; simpl in Heq.
  - by injection Heq as -> ->.
  - injection Heq as -> ->. apply Forall_app in Hrest as [_ Hrest].
    inversion Hrest; congruence.
Qed.

Section ControllerTraces.
Variable sys : Oracle.

Lemma Emits_run_Prestart P hooks :
  (forall h st r, P (EvHook h st r) = true) ->
  Emits P (run_Prestart sys hooks).
Proof.
  intros HP. induction hooks as [|h rest IH]; simpl; [emits|].
  apply Emits_bind; [emits|intros st].
  apply Emits_bind; [apply Emits_ask; intros; apply HP|intros err].
  apply Emits_bind; [emits|intros _; apply IH].
Qed.

(** PreStartProcess up to the instance lookup. *)
Lemma Emits_before_lookup engine pid :
  Emits not_lookup
    (do* tell (EvKill pid "SIGSTOP") in
     match OciHooks engine with
     | Some hooks => run_Prestart sys (Prestart hooks)
     | None => ret tt
     end).
Proof.
  apply Emits_bind; [emits|intros _].
  destruct (OciHooks engine); [by apply Emits_run_Prestart|emits].
Qed.

(** PreStartProcess after the attach listener is made. *)
Lemma Emits_after_socket engine (err : option error) :
  Emits not_lookup
    (do* check id err in
     let* err := updateState sys "created" in
     do* check id err in
     do* tell (EvGoHandleStream
                 (if negb (MasterPts engine =? -1)%Z then MasterPts engine else 0%Z)) in
     let* wr := masterConn_Write sys token_s in
     do* check (Errorf_err "failed to send ACK to start process: ") (snd wr) in
     let* rd := masterConn_Read sys in
     if negb (is_EOF (snd rd))
     then return_ (snd rd) : M (option error)
     else return_ None).
Proof. unfold updateState, masterConn_Write, masterConn_Read. emits. Qed.

End ControllerTraces.

Lemma bind_tell {B} (e : Event) (k : unit -> M B) w :
  bind (tell e) k w = k tt (emit e w).
Proof. reflexivity. Qed.

Lemma bind_ask {A B} (f : list Event -> A) (ev : A -> Event) (k : A -> M B) w :
  bind (ask f ev) k w = k (f (w_trace w)) (emit (ev (f (w_trace w))) w).
Proof. reflexivity. Qed.

Lemma bind_annotate {B} (key value : string) (k : unit -> M B) w :
  bind (annotate key value) k w =
  match Annotations (w_State w) with
  | None => (Halt (Panic "assignment to entry in nil map"), w)
  | Some m => k tt (set_State {| Annotations := Some (<[key := value]> m) |} w)
  end.
Proof. unfold bind, annotate. by destruct (Annotations (w_State w)). Qed.

Lemma bind_emits {A B} P (m : M A) (k : A -> M B) w :
  Emits P m ->
  exists evs,
    Forall (fun e => P e = true) evs /\
    ((exists a, bind m k w = k a (extend w evs)) \/
     (exists s, bind m k w = (Halt s, extend w evs))).
Proof.
  intros Hm. destruct (Hm w) as (evs & Hw & Hevs). exists evs. split; [done|].
  unfold bind. destruct (m w) as [[a|s] w1]; simpl in Hw; subst w1; eauto.
Qed.

(** How far a run of PreStartProcess gets: it stops before the lookup, or
    the lookup answers [(file, err)] and the next steps depend on [file]
    alone. *)
Lemma PreStartProcess_run (sys : Oracle) (engine : EngineOperations) (pid : Z) (w : World) :
  exists pre,
    Forall (fun e => not_lookup e = true) pre /\
    (snd (PreStartProcess sys engine pid w) = extend w pre \/
     exists file err,
       let get := EvInstanceGet (ContainerID engine) (file, err) in
       match file with
       | None =>
           PreStartProcess sys engine pid w
             = (Halt (Panic "invalid memory address or nil pointer dereference"),
                extend w (pre ++ [get]))
       | Some f =>
           match Annotations (w_State w) with
           | None =>
               PreStartProcess sys engine pid w
                 = (Halt (Panic "assignment to entry in nil map"),
                    extend w (pre ++ [get]))
           | Some m =>
               exists r rest,
                 Forall (fun e => not_lookup e = true) rest /\
                 snd (PreStartProcess sys engine pid w)
                   = set_State
                       {| Annotations :=
                            Some (<["io.sylabs.runtime.oci.attach-socket" :=
                                      attach_socket sys engine f]> m) |}
                       (extend w (pre ++ get ::
                          EvCreateSocket (attach_socket sys engine f) r :: rest))
           end
       end).
Proof.
  unfold PreStartProcess. rewrite call_outcome.
  match goal with |- context [outcome (fst ?b)] => remember b as R eqn:HR end.
  rewrite bind_tell in HR.
  match type of HR with
  | _ = bind ?m ?k ?w1 =>
      destruct (bind_emits not_lookup m k w1) as (evh & Hevh & [[[] Hb]|[s Hb]])
  end.
  { destruct (OciHooks engine); [by apply Emits_run_Prestart|emits]. }
  2:{ rewrite Hb in HR. subst R. exists (EvKill pid "SIGSTOP" :: evh).
      split; [by constructor|]. left. simpl.
      by rewrite emit_extend, extend_extend. }
  rewrite Hb in HR. clear Hb.
  rewrite emit_extend, extend_extend, bind_ask in HR.
  exists (EvKill pid "SIGSTOP" :: evh). split; [by constructor|]. right.
  destruct (instance_Get sys _ (ContainerID engine)) as [[f|] err] eqn:Hget.
  2:{ exists None, err. subst R. simpl.
      by rewrite emit_extend, extend_extend. }
  exists (Some f), err. simpl.
  rewrite bind_annotate in HR. simpl in HR.
  destruct (Annotations (w_State w)) as [m|].
  2:{ subst R. simpl. by rewrite emit_extend, extend_extend. }
  match type of HR with
  | _ = bind (ask ?f ?ev) ?k ?w1 =>
      destruct (bind_ask_first not_lookup f ev k w1) as (rest & Hw & Hrest);
        [intros e; apply (Emits_after_socket sys engine e)|]
  end.
  rewrite <- HR in Hw. simpl. rewrite Hw.
  eexists _, rest. split; [done|].
  unfold extend, set_State, emit, attach_socket; simpl.
  by rewrite <- !app_assoc.
Qed.

(** Wherever an instance lookup stands in the trace of a run, what follows
    it depends on the file value alone. *)
Lemma PreStartProcess_after_any_lookup
    (sys : Oracle) (engine : EngineOperations) (pid : Z) (w : World) :
  exists evs,
    w_trace (snd (PreStartProcess sys engine pid w)) = w_trace w ++ evs /\
    forall tr1 id file err tr2,
      evs = tr1 ++ EvInstanceGet id (file, err) :: tr2 ->
      match file with
      | None =>
          fst (PreStartProcess sys engine pid w)
            = Halt (Panic "invalid memory address or nil pointer dereference") /\
          tr2 = []
      | Some f =>
          match Annotations (w_State w) with
          | None =>
              fst (PreStartProcess sys engine pid w)
                = Halt (Panic "assignment to entry in nil map") /\
              tr2 = []
          | Some m =>
              Annotations (w_State (snd (PreStartProcess sys engine pid w)))
                = Some (<["io.sylabs.runtime.oci.attach-socket" :=
                            attach_socket sys engine f]> m) /\
              exists r tr3,
                tr2 = EvCreateSocket (attach_socket sys engine f) r :: tr3
          end
      end.
Proof.
  destruct (PreStartProcess_run sys engine pid w) as (pre & Hpre & Hrun).
  destruct Hrun as [Hw|(file & err & Hrun)].
  { exists pre. rewrite Hw. split; [done|].
    intros tr1 id file err tr2 Heq. exfalso.
    rewrite Heq in Hpre. apply Forall_app in Hpre as [_ Hpre].
    inversion Hpre; discriminate. }
  destruct file as [f|]; simpl in Hrun.
  2:{ rewrite Hrun. eexists; split; [reflexivity|].
      intros tr1 id file' err' tr2 Heq.
      destruct (split_after not_lookup pre _ tr1 (EvInstanceGet id (file', err')) tr2
                  Hpre eq_refl Heq)
        as (s1 & -> & Hs1).
      destruct (head_of_split not_lookup _ _ s1 (EvInstanceGet id (file', err')) tr2
                  (Forall_nil_2 _) eq_refl Hs1)
        as (_ & [= <- <- <-] & <-).
      done. }
  destruct (Annotations (w_State w)) as [m|] eqn:Hann.
  2:{ rewrite Hrun. eexists; split; [reflexivity|].
      intros tr1 id file' err' tr2 Heq.
      destruct (split_after not_lookup pre _ tr1 (EvInstanceGet id (file', err')) tr2
                  Hpre eq_refl Heq)
        as (s1 & -> & Hs1).
      destruct (head_of_split not_lookup _ _ s1 (EvInstanceGet id (file', err')) tr2
                  (Forall_nil_2 _) eq_refl Hs1)
        as (_ & [= <- <- <-] & <-).
      done. }
  destruct Hrun as (r & rest & Hrest & Hw).
  rewrite Hw. eexists; split; [reflexivity|].
  intros tr1 id file' err' tr2 Heq.
  destruct (split_after not_lookup pre _ tr1 (EvInstanceGet id (file', err')) tr2
                  Hpre eq_refl Heq)
    as (s1 & -> & Hs1).
  assert (Hrest' : Forall (fun e => not_lookup e = true)
                     (EvCreateSocket (attach_socket sys engine f) r :: rest))
    by (by constructor).
  destruct (head_of_split not_lookup _ _ s1 (EvInstanceGet id (file', err')) tr2
              Hrest' eq_refl Hs1)
    as (_ & [= <- <- <-] & <-).
  simpl. split; [done|]. eauto.
Qed.




(** A run in which the lookup fails and a file value comes back: the
    controller goes on to the listener, the state and the handshake. *)
Example PreStartProcess_lookup_fails_run :
  fst (PreStartProcess lookup_fails (true_engine "/" []) 7%Z w0) = Val None /\
  w_trace (snd (PreStartProcess lookup_fails (true_engine "/" []) 7%Z w0))
    = [EvKill 7%Z "SIGSTOP";
       EvInstanceGet "c1" (Some {| Path := "/run/instances/c1" |},
                           Some (errorString "no instance found"));
       EvCreateSocket "/run/instances/c1.sock" None;
       EvUpdateState "created"
         {| Annotations :=
              Some (<["io.sylabs.runtime.oci.attach-socket" :=
                        "/run/instances/c1.sock"]> ∅) |} None;
       EvGoHandleStream 0%Z;
       EvConnWrite token_s (1%Z, None);
       EvConnRead 1%Z ([], Some io_EOF)].
Proof. split; reflexivity. Qed.

(** C1 fails on the code. The child sends one byte instead of closing the
    channel: the read returns that byte with a nil error, the test
    [err != io.EOF] holds, and PreStartProcess returns that nil error, as it
    does on end of stream. *)
Theorem PreStartProcess_data_byte_returns_nil :
  fst (PreStartProcess child_sends_byte (true_engine "/" []) 7%Z w0) = Val None /\
  w_trace (snd (PreStartProcess child_sends_byte (true_engine "/" []) 7%Z w0))
    = [EvKill 7%Z "SIGSTOP";
       EvInstanceGet "c1" (Some {| Path := "/run/instances/c1" |}, None);
       EvCreateSocket "/run/instances/c1.sock" None;
       EvUpdateState "created"
         {| Annotations :=
              Some (<["io.sylabs.runtime.oci.attach-socket" :=
                        "/run/instances/c1.sock"]> ∅) |} None;
       EvGoHandleStream 0%Z;
       EvConnWrite token_s (1%Z, None);
       EvConnRead 1%Z ([x74], None)] /\
  fst (PreStartProcess child_closes (true_engine "/" []) 7%Z w0) = Val None.
Proof. repeat split; reflexivity. Qed.

(** With the caller as section 4.4 describes it, the state running is
    persisted after the byte. *)
Example controller_startup_after_byte :
  fst (controller_startup child_sends_byte (true_engine "/" []) 7%Z w0) = Val None /\
  last (w_trace (snd (controller_startup child_sends_byte (true_engine "/" []) 7%Z w0)))
    = Some (EvUpdateState "running"
              {| Annotations :=
                   Some (<["io.sylabs.runtime.oci.attach-socket" :=
                             "/run/instances/c1.sock"]> ∅) |} None).
Proof. split; reflexivity. Qed.

(* ===================================================================== *)
(** ** The stream broadcaster *)
(* ===================================================================== *)

Section BroadcastFacts.
Context {W St : Type}.
Variable wWrite : W -> list byte -> St -> Res (Z * option error) * St.






End BroadcastFacts.


(** A short write by the second of three destinations: the call reports
    [io.ErrShortWrite] and the third destination is not written to. *)
Example Write_loop_short_write :
  Write_loop sample_dest [0; 1; 2] token_t tt
    = (Val (0%Z, Some io_ErrShortWrite), tt) /\
  map d_dest (deliveries sample_dest [0; 1; 2] token_t tt) = [0; 1] /\
  Write_loop sample_dest [0; 2] token_t tt = (Val (1%Z, None), tt) /\
  map d_dest (deliveries sample_dest [0; 2] token_t tt) = [0; 2].
Proof. repeat split; reflexivity. Qed.

(** Write on a broadcaster of the heap whose lock the caller does not
    hold. When the lock is obtained, the loop runs over the writers found
    there and the lock is released when the loop returns; when another
    goroutine keeps the lock, Write does not return and nothing is written. *)
Lemma multiWriter_Write_unlocked (sys : Oracle)
    (wWrite : Writer -> list byte -> M (Z * option error))
    (a : nat) (p : list byte) (w : World) (mw : multiWriter) :
  w_heap w !! a = Some mw -> mux mw = false ->
  multiWriter_Write sys wWrite a p w
    = match mutex_Lock sys (w_trace w) a with
      | Locked =>
          defer_ (Unlock a) (Write_loop wWrite (writers mw) p)
            (set_heap (<[a := {| mux := true; writers := writers mw |}]> (w_heap w)) w)
      | LockBlocks => (Halt Blocked, w)
      end.
Proof.
  intros Hmw Hmux. unfold multiWriter_Write, bind, Lock.
  rewrite Hmw, Hmux. destruct (mutex_Lock sys (w_trace w) a); [|done].
  unfold defer_ at 1 2, bind, get_writers. simpl.
  by rewrite lookup_insert_eq.
Qed.

(** The constructor hands every writer on as it is, except a broadcaster,
    which is replaced by the writers it holds at that moment. *)
Lemma MultiWriter_loop_flattens ws : forall allwriters w,
  (forall a, In (MultiW a) ws -> is_Some (w_heap w !! a)) ->
  MultiWriter_loop ws allwriters w
    = (Val (allwriters ++ flatten (w_heap w) ws), w).
Proof.
  induction ws as [|x rest IH]; intros allwriters w Hin; simpl.
  - unfold flatten; simpl. by rewrite app_nil_r.
  - assert (Hrest : forall a, In (MultiW a) rest -> is_Some (w_heap w !! a))
      by (intros a Ha; apply Hin; by right).
    unfold flatten in *. simpl.
    destruct x as [c| |a].
    + rewrite IH by done. by rewrite <- app_assoc.
    + rewrite IH by done. by rewrite <- app_assoc.
    + destruct (Hin a (or_introl eq_refl)) as [mw Hmw].
      unfold bind, get_writers. rewrite Hmw.
      rewrite IH by done. by rewrite <- app_assoc.
Qed.

Lemma MultiWriter_flattens ws w :
  (forall a, In (MultiW a) ws -> is_Some (w_heap w !! a)) ->
  exists a,
    w_heap w !! a = None /\
    MultiWriter ws w
      = (Val a, set_heap (<[a := {| mux := false;
                                    writers := flatten (w_heap w) ws |}]>
                            (w_heap w)) w).
Proof.
  intros Hin. exists (fresh (dom (w_heap w))). split.
  - apply not_elem_of_dom, is_fresh.
  - unfold MultiWriter, bind. by rewrite MultiWriter_loop_flattens.
Qed.

(** C5 fails on the code for Add. Add appends the writer it is given as it
    is: a broadcaster added with Add stays one destination of the list,
    where the constructor would have put its writers. A client that joins
    the added broadcaster afterwards is then written to through it: in one
    Write of the token, client 0 gets the token twice. *)
Theorem multiWriter_Add_nests :
  (let* (outer, inner) := add_broadcaster in
   let* ws := get_writers outer in ret (ws, inner)) w0
    = (Val ([ConnW 0; MultiW 1], 1), snd (add_broadcaster w0)) /\
  (let* (outer, inner) := construct_from_broadcaster in
   let* ws := get_writers outer in ret (ws, inner)) w0
    = (Val ([ConnW 0; ConnW 1], 0), snd (construct_from_broadcaster w0)) /\
  fst (write_after_add w0) = Val (1%Z, None) /\
  w_trace (snd (write_after_add w0))
    = [EvDestWrite 0 token_t (1%Z, None);
       EvDestWrite 1 token_t (1%Z, None);
       EvDestWrite 0 token_t (1%Z, None)] /\
  w_trace (snd (write_after_construct w0))
    = [EvDestWrite 0 token_t (1%Z, None);
       EvDestWrite 1 token_t (1%Z, None)].
Proof. repeat split; vm_compute; reflexivity. Qed.

(* ===================================================================== *)
(** ** The attach accept loop *)
(* ===================================================================== *)

(** C3 fails on the code. Every client is accepted. Ten iterations wire
    clients 0 to 9; the eleventh, with the counter at 10, skips the accept;
    the twelfth, with the counter at 11, accepts the next client and stores
    it at index 11 of a slice of length 10: the loop panics, whatever the
    number of iterations left to it. *)
Theorem handleStream_panics_past_ceiling (k : nat) :
  fst (handleStream ok_sys (12 + k) 0%Z w0) = Halt (Panic "index out of range") /\
  w_trace (snd (handleStream ok_sys (12 + k) 0%Z w0))
    = [EvAccept (inl 0); EvGoCopyToClients 0; EvGoCopyFromClient 0%Z 0;
       EvAccept (inl 1); EvGoCopyFromClient 0%Z 1;
       EvAccept (inl 2); EvGoCopyFromClient 0%Z 2;
       EvAccept (inl 3); EvGoCopyFromClient 0%Z 3;
       EvAccept (inl 4); EvGoCopyFromClient 0%Z 4;
       EvAccept (inl 5); EvGoCopyFromClient 0%Z 5;
       EvAccept (inl 6); EvGoCopyFromClient 0%Z 6;
       EvAccept (inl 7); EvGoCopyFromClient 0%Z 7;
       EvAccept (inl 8); EvGoCopyFromClient 0%Z 8;
       EvAccept (inl 9); EvGoCopyFromClient 0%Z 9;
       EvAccept (inl 10); EvListenerClose].
Proof. split; vm_compute; reflexivity. Qed.

(* ===================================================================== *)
(** ** The two failure reports, in every environment *)
(* ===================================================================== *)

(** Outside the empty-process mode, a refused security policy is the last
    event of StartProcess: it follows the pause-notify write and the
    resume-ack read, and no write on the handshake channel follows it. *)
Lemma StartProcess_security_failure_last (sys : Oracle) (engine : EngineOperations) (w : World) :
  EmptyProcess engine = false ->
  exists evs,
    w_trace (snd (StartProcess sys engine w)) = w_trace w ++ evs /\
    forall tr1 e tr2,
      evs = tr1 ++ EvSecurityConfigure (Some e) :: tr2 ->
      tr2 = [] /\
      fst (StartProcess sys engine w)
        = Val (Some (Errorf_err "failed to apply security configuration: " e)) /\
      exists pre n data,
        Forall (fun x => is_setup x = true) pre /\
        tr1 = pre ++ [EvConnWrite token_t (n, None); EvConnRead 1%Z (data, None)].
Proof.
  intros Hmode.
  destruct (StartProcess_shaped sys engine Hmode w)
    as (pre & tail & Hw & Hpre & Htail).
  assert (Hout : outcome (fst (StartProcess sys engine w))
                 = fst (StartProcess sys engine w)).
  { unfold StartProcess. apply outcome_call. }
  rewrite Hout in Htail. clear Hout.
  exists (pre ++ tail). split; [by rewrite Hw|]. clear Hw.
  intros tr1 e tr2 Heq.
  destruct (split_in_tail pre tail tr1 (EvSecurityConfigure (Some e)) tr2 Hpre)
    as (s1 & -> & ->); [done..|].
  destruct Htail as [Hnil|Hshape]; [by destruct s1|].
  invert_shape Hshape.
  split; [done|]. split; [done|]. by eexists pre, _, _.
Qed.

Section GrowsRules.
Context (P : Event -> bool).

Lemma Emits_Grows {A} (m : M A) : Emits P m -> Grows P m.
Proof.
  intros Hm w. destruct (Hm w) as (evs & Hw & Hevs).
  exists evs. by rewrite Hw.
Qed.

Lemma Grows_annotate key value : Grows P (annotate key value).
Proof.
  intros w. exists []. rewrite app_nil_r. split; [|constructor].
  unfold annotate. by destruct (Annotations (w_State w)).
Qed.

Lemma Grows_bind {A B} (m : M A) (k : A -> M B) :
  Grows P m -> (forall a, Grows P (k a)) -> Grows P (bind m k).
Proof.
  intros Hm Hk w. unfold bind.
  destruct (Hm w) as (evs & Hw & Hevs).
  destruct (m w) as [[a|s] w1]; simpl in Hw.
  - destruct (Hk a w1) as (evs' & Hw' & Hevs').
    exists (evs ++ evs'). rewrite Hw', Hw, app_assoc.
    split; [done|]. by apply Forall_app.
  - by exists evs.
Qed.

End GrowsRules.

Lemma ReadDecides_bind {A} (m : M A) (k : A -> M (option error)) :
  Grows not_read m -> (forall a, ReadDecides (k a)) -> ReadDecides (bind m k).
Proof.
  intros Hm Hk w. unfold bind.
  destruct (Hm w) as (evs & Hw & Hevs).
  destruct (m w) as [[a|s] w1]; simpl in Hw.
  - destruct (Hk a w1) as (pre & Hpre & Hcases).
    exists (evs ++ pre). split; [by apply Forall_app|].
    rewrite Hw in Hcases.
    destruct Hcases as [Ht|(data & err & Ht & Hr)].
    + left. by rewrite Ht, app_assoc.
    + right. exists data, err. by rewrite Ht, <- !app_assoc.
  - exists evs. split; [done|]. by left.
Qed.

Lemma ReadDecides_halt (s : Stop) : ReadDecides (halt s).
Proof.
  intros w. exists []. split; [constructor|]. left. simpl. by rewrite app_nil_r.
Qed.

Lemma ReadDecides_call (body : M (option error)) :
  ReadDecides body -> ReadDecides (call body).
Proof.
  intros Hm w. rewrite call_outcome. simpl. rewrite outcome_idem. apply Hm.
Qed.

Lemma ReadDecides_final (sys : Oracle) :
  ReadDecides
    (let* rd := masterConn_Read sys in
     if negb (is_EOF (snd rd))
     then return_ (snd rd) : M (option error)
     else return_ None).
Proof.
  intros w. exists []. split; [constructor|]. right.
  unfold bind, masterConn_Read, ask, after_read.
  destruct (conn_Read sys (w_trace w) 1%Z) as [data err]. exists data, err.
  simpl. by destruct (is_EOF err).
Qed.

Lemma PreStartProcess_read_decides (sys : Oracle) (engine : EngineOperations) (pid : Z) :
  ReadDecides (PreStartProcess sys engine pid).
Proof.
  unfold PreStartProcess. apply ReadDecides_call.
  apply ReadDecides_bind; [apply Emits_Grows; emits|intros _].
  apply ReadDecides_bind.
  { apply Emits_Grows.
    destruct (OciHooks engine); [by apply Emits_run_Prestart|emits]. }
  intros _.
  apply ReadDecides_bind; [apply Emits_Grows; emits|intros [[f|] err]].
  2:{ apply ReadDecides_halt. }
  apply ReadDecides_bind; [apply Grows_annotate|intros _].
  apply ReadDecides_bind; [apply Emits_Grows; emits|intros err'].
  apply ReadDecides_bind; [apply Emits_Grows; emits|intros _].
  apply ReadDecides_bind;
    [apply Emits_Grows; unfold updateState; emits|intros err''].
  apply ReadDecides_bind; [apply Emits_Grows; emits|intros _].
  apply ReadDecides_bind; [apply Emits_Grows; emits|intros _].
  apply ReadDecides_bind;
    [apply Emits_Grows; unfold masterConn_Write; emits|intros wr].
  apply ReadDecides_bind; [apply Emits_Grows; emits|intros _].
  apply ReadDecides_final.
Qed.

(** In every environment, the read of PreStartProcess on the handshake
    channel is its last step, and what comes back is: nil on end of stream,
    the error on any other error, and nil again when the read succeeds with
    a data byte. *)
Lemma PreStartProcess_after_read (sys : Oracle) (engine : EngineOperations)
    (pid : Z) (w : World) :
  exists evs,
    w_trace (snd (PreStartProcess sys engine pid w)) = w_trace w ++ evs /\
    forall tr1 k data err tr2,
      evs = tr1 ++ EvConnRead k (data, err) :: tr2 ->
      tr2 = [] /\
      fst (PreStartProcess sys engine pid w) = Val (after_read err).
Proof.
  destruct (PreStartProcess_read_decides sys engine pid w) as (pre & Hpre & Hcases).
  assert (Hout : outcome (fst (PreStartProcess sys engine pid w))
                 = fst (PreStartProcess sys engine pid w)).
  { unfold PreStartProcess. apply outcome_call. }
  rewrite Hout in Hcases. clear Hout.
  destruct Hcases as [Ht|(data & err & Ht & Hr)].
  - exists pre. split; [done|]. intros tr1 k data err tr2 Heq. exfalso.
    rewrite Heq in Hpre. apply Forall_app in Hpre as [_ Hpre].
    inversion Hpre; discriminate.
  - eexists. split; [exact Ht|]. intros tr1 k data' err' tr2 Heq.
    destruct (split_after not_read pre _ tr1 (EvConnRead k (data', err')) tr2
                Hpre eq_refl Heq) as (s1 & -> & Hs1).
    destruct (head_of_split not_read _ _ s1 (EvConnRead k (data', err')) tr2
                (Forall_nil_2 _) eq_refl Hs1) as (_ & [= <- <- <-] & <-).
    done.
Qed.

(* ===================================================================== *)
(** ** The accept loop, for every listener that keeps accepting *)
(* ===================================================================== *)

Lemma wrap_int_small (x : Z) :
  (- 2 ^ 63 <= x < 2 ^ 63)%Z -> wrap_int x = x.
Proof.
  intros Hx. unfold wrap_int. rewrite Z.mod_small; lia.
Qed.

Lemma MultiWriter_single (c : Conn) (w : World) :
  exists m w',
    MultiWriter [ConnW c] w = (Val m, w') /\
    w_heap w' !! m = Some {| mux := false; writers := [ConnW c] |}.
Proof.
  destruct (MultiWriter_flattens [ConnW c] w) as (m & _ & Heq).
  { intros a [Ha|[]]. discriminate. }
  eexists m, _. split; [exact Heq|]. simpl. by rewrite lookup_insert_eq.
Qed.

Lemma multiWriter_Add_ok (sys : Oracle) (m : nat) (x : Writer) (w : World)
    (ws : list Writer) :
  w_heap w !! m = Some {| mux := false; writers := ws |} ->
  mutex_Lock sys (w_trace w) m = Locked ->
  exists w',
    multiWriter_Add sys m x w = (Val tt, w') /\
    w_heap w' !! m = Some {| mux := false; writers := ws ++ [x] |}.
Proof.
  intros Hm Hlock.
  unfold multiWriter_Add, bind, Lock, get_writers, set_writers, Unlock.
  rewrite Hm. simpl. rewrite Hlock. simpl. rewrite lookup_insert_eq. simpl.
  rewrite lookup_insert_eq. simpl. rewrite lookup_insert_eq. simpl.
  eexists. split; [reflexivity|]. simpl. by rewrite lookup_insert_eq.
Qed.

(** With [r] iterations to go before the counter reaches 11, a slice of
    length 10 and a broadcaster whose lock the loop does not hold (or none
    yet), the loop panics on the store at index 11. *)
Lemma handleStream_loop_panics (sys : Oracle) (master : Z) :
  (forall h, exists c, net_Accept sys h = Accepted (inl c)) ->
  (forall h a, mutex_Lock sys h a = Locked) ->
  forall (r : nat) (fuel : nat) (n : Z) (a : list (option Conn))
         (mw : option nat) (w : World),
    (1 <= r <= 12)%nat -> (r <= fuel)%nat -> n = (11 - Z.of_nat r)%Z ->
    length a = 10%nat ->
    match mw with
    | None => True
    | Some m => exists ws, w_heap w !! m = Some {| mux := false; writers := ws |}
    end ->
    fst (handleStream_loop sys fuel master n a mw w)
      = Halt (Panic "index out of range").
Proof.
  intros Hacc Hlock r.
  induction r as [|r IH]; intros fuel n a mw w Hr Hfuel Hn Ha Hmw; [lia|].
  destruct fuel as [|fuel]; [lia|]. simpl.
  rewrite wrap_int_small by lia.
  destruct (Z.eqb_spec (n + 1) maxClient) as [Heq|Hne].
  { unfold maxClient in Heq. apply IH; try done; lia. }
  unfold maxClient in Hne.
  unfold bind at 1. unfold l_Accept at 1.
  destruct (Hacc (w_trace w)) as [c ->].
  unfold bind at 1. unfold slice_store, len. rewrite Ha.
  destruct (decide (r = 0%nat)) as [->|Hr0].
  { replace (n + 1)%Z with 11%Z by lia. reflexivity. }
  assert (Hlt : (n + 1 < 10)%Z) by lia.
  replace ((0 <=? n + 1)%Z && (n + 1 <? Z.of_nat 10)%Z) with true
    by (symmetry; apply andb_true_intro; split; [apply Z.leb_le|apply Z.ltb_lt]; lia).
  unfold ret at 1. unfold bind at 1.
  destruct mw as [m|].
  - destruct Hmw as [ws Hm].
    destruct (multiWriter_Add_ok sys m (ConnW c) (emit (EvAccept (inl c)) w) ws Hm
                (Hlock _ _))
      as (w' & Hadd & Hm').
    unfold bind at 1. rewrite Hadd. unfold ret at 1. rewrite bind_tell.
    apply IH; try done; try lia.
    + by rewrite length_insert.
    + by exists (ws ++ [ConnW c]).
  - destruct (MultiWriter_single c (emit (EvAccept (inl c)) w))
      as (m & w' & Hnew & Hm').
    unfold bind at 1 2. rewrite Hnew. unfold tell at 1, ret at 1.
    cbv beta iota. rewrite bind_tell.
    apply IH; try done; try lia.
    + by rewrite length_insert.
    + by eexists.
Qed.

(** Whatever connections the listener hands out, as long as it hands out
    one each time and the output copy task always lets go of the lock of the
    broadcaster: handleStream panics once the counter has passed the
    ceiling, for any number of iterations from twelve on. *)
Lemma handleStream_panics (sys : Oracle) (master : Z) (w : World) (k : nat) :
  (forall h, exists c, net_Accept sys h = Accepted (inl c)) ->
  (forall h a, mutex_Lock sys h a = Locked) ->
  fst (handleStream sys (12 + k) master w) = Halt (Panic "index out of range").
Proof.
  intros Hacc Hlock. unfold handleStream, defer_.
  pose proof (handleStream_loop_panics sys master Hacc Hlock 12 (12 + k) (-1)%Z
                (replicate (Z.to_nat maxClient) None) None w) as Hloop.
  destruct (handleStream_loop sys (12 + k) master (-1)
              (replicate (Z.to_nat maxClient) None) None w) as [r w'].
  simpl in Hloop. rewrite Hloop; [|lia|lia|done|done|done].
  reflexivity.
Qed.

(* ===================================================================== *)
(** ** The resource limiter on distinct kinds *)
(* ===================================================================== *)

(** The loop on a list without a repeated kind: every call succeeds and the
    loop ends with nil, or it stops at the first refused call. *)
Lemma setRlimit_loop_distinct (sys : Oracle) (rls : list POSIXRlimit) :
  forall resources w,
    NoDup (resources ++ map Type_ rls) ->
    (setRlimit_loop sys rls resources w = (Val None, extend w (set_ok rls)) /\
     forall done x rest,
       rls = done ++ x :: rest -> set_answer sys w done x = None)
    \/ exists done x rest e,
         rls = done ++ x :: rest /\
         set_answer sys w done x = Some e /\
         setRlimit_loop sys rls resources w
           = (Halt (Return (Some e)),
              extend w (set_ok done ++ [EvRlimitSet x (Some e)])).
Proof.
  induction rls as [|x rls IH]; intros resources w Hnd; simpl in *.
  - left. rewrite extend_nil. split; [done|]. intros [|? ?] ? ? [=].
  - unfold bind, ask.
    destruct (rlimit_Set sys (w_trace w) (Type_ x) (Soft x) (Hard x)) as [e|] eqn:Hset.
    + right. exists [], x, rls, e. unfold set_answer; simpl.
      rewrite app_nil_r. by repeat split.
    + simpl. rewrite already_set_not_In.
      2:{ apply NoDup_app in Hnd as (_ & Hdis & _).
          intros Hx. apply (Hdis (Type_ x)); [by apply list_elem_of_In|left]. }
      destruct (IH (resources ++ [Type_ x]) (emit (EvRlimitSet x None) w))
        as [[Heq Hall]|(done & y & rest & e & Hsplit & Hans & Heq)].
      * by rewrite <- app_assoc.
      * left. rewrite Heq, emit_extend, extend_extend. split; [done|].
        intros [|y done] z rest Hsplit; simpl in Hsplit;
          injection Hsplit as -> Hsplit.
        -- unfold set_answer; simpl. by rewrite app_nil_r.
        -- specialize (Hall done z rest Hsplit). unfold set_answer in *.
           simpl in *. by rewrite <- app_assoc in Hall.
      * right. exists (x :: done), y, rest, e. split; [by rewrite Hsplit|].
        split.
        -- unfold set_answer in *. simpl in *. by rewrite <- app_assoc in Hans.
        -- rewrite Heq, emit_extend, extend_extend. reflexivity.
Qed.

(** X1. On a list whose kinds are pairwise distinct, setRlimit applies the
    entries in list order. When every limit-set call succeeds it returns nil
    after the last entry; otherwise it stops at the first refused call and
    returns the error of that call unchanged, the earlier entries staying
    applied. *)
Theorem setRlimit_distinct_kinds (sys : Oracle) (rls : list POSIXRlimit) (w : World) :
  NoDup (map Type_ rls) ->
  (setRlimit sys rls w = (Val None, extend w (set_ok rls)) /\
   forall done x rest,
     rls = done ++ x :: rest -> set_answer sys w done x = None)
  \/ exists done x rest e,
       rls = done ++ x :: rest /\
       set_answer sys w done x = Some e /\
       setRlimit sys rls w
         = (Val (Some e), extend w (set_ok done ++ [EvRlimitSet x (Some e)])).
Proof.
  intros Hnd. unfold setRlimit. rewrite call_outcome.
  destruct (setRlimit_loop_distinct sys rls [] w Hnd)
    as [[Heq Hall]|(done & x & rest & e & Hsplit & Hans & Heq)].
  - left. by rewrite Heq.
  - right. exists done, x, rest, e. by rewrite Heq.
Qed.

Lemma setRlimit_distinct_kinds_witness :
  (setRlimit second_set_refused [nofile 5 10; nproc 6 12] w0
     = (Val None, extend w0 (set_ok [nofile 5 10; nproc 6 12])) /\
   forall done x rest,
     [nofile 5 10; nproc 6 12] = done ++ x :: rest ->
     set_answer second_set_refused w0 done x = None)
  \/ exists done x rest e,
       [nofile 5 10; nproc 6 12] = done ++ x :: rest /\
       set_answer second_set_refused w0 done x = Some e /\
       setRlimit second_set_refused [nofile 5 10; nproc 6 12] w0
         = (Val (Some e), extend w0 (set_ok done ++ [EvRlimitSet x (Some e)])).
Proof.
  apply (setRlimit_distinct_kinds second_set_refused [nofile 5 10; nproc 6 12] w0).
  apply (bool_decide_unpack _). vm_compute. exact I.
Defined.

(* ===================================================================== *)
(** ** How StartProcess ends *)
(* ===================================================================== *)

Section HaltsRules.
Context (Q : Stop -> Prop).

Lemma HaltsIn_ret {A} (a : A) : HaltsIn Q (ret a).
Proof. intros w s [=]. Qed.

Lemma HaltsIn_ask {A} (f : list Event -> A) (ev : A -> Event) :
  HaltsIn Q (ask f ev).
Proof. intros w s [=]. Qed.

Lemma HaltsIn_tell (e : Event) : HaltsIn Q (tell e).
Proof. intros w s [=]. Qed.

Lemma HaltsIn_halt {A} (s : Stop) : Q s -> HaltsIn Q (@halt A s).
Proof. intros Hs w s' [= <-]. done. Qed.

Lemma HaltsIn_check (wrap : error -> error) (err : option error) :
  (forall e, Q (Return (Some (wrap e)))) -> HaltsIn Q (check wrap err).
Proof.
  intros HQ. destruct err; [apply HaltsIn_halt, HQ|apply HaltsIn_ret].
Qed.

Lemma HaltsIn_bind {A B} (m : M A) (k : A -> M B) :
  HaltsIn Q m -> (forall a, HaltsIn Q (k a)) -> HaltsIn Q (bind m k).
Proof.
  intros Hm Hk w s. unfold bind. specialize (Hm w).
  destruct (m w) as [[a|s'] w1]; simpl in *.
  - apply Hk.
  - intros [= <-]. by apply Hm.
Qed.

Lemma HaltsIn_call (body : M (option error)) :
  HaltsIn (fun s => (exists err, s = Return err) \/ Q s) body ->
  HaltsIn Q (call body).
Proof.
  intros Hb w s. unfold call. specialize (Hb w).
  destruct (body w) as [[a|s'] w1]; simpl in *; [intros [=]|].
  destruct (Hb s' eq_refl) as [[err ->]|Hs]; [intros [=]|].
  destruct s'; simpl; intros [= <-]; done.
Qed.

Lemma EndsIn_halt {A} (s : Stop) : Q s -> EndsIn Q (@halt A s).
Proof. intros Hs w. by exists s. Qed.

Lemma EndsIn_bind {A B} (m : M A) (k : A -> M B) :
  HaltsIn Q m -> (forall a, EndsIn Q (k a)) -> EndsIn Q (bind m k).
Proof.
  intros Hm Hk w. unfold bind. specialize (Hm w).
  destruct (m w) as [[a|s] w1]; simpl in *.
  - apply Hk.
  - exists s. split; [done|]. by apply Hm.
Qed.

End HaltsRules.

Ltac halts_in :=
  repeat first
    [ apply HaltsIn_ret
    | apply HaltsIn_ask
    | apply HaltsIn_tell
    | apply HaltsIn_bind; [|intros]
    | match goal with
      | |- HaltsIn _ (if ?b then _ else _) => destruct b
      | |- HaltsIn _ (match ?x with _ => _ end) => destruct x
      end ].

Section ChildEnds.
Variable sys : Oracle.

Lemma HaltsIn_setRlimit Q rls : HaltsIn Q (setRlimit sys rls).
Proof.
  apply HaltsIn_call.
  assert (H : forall resources,
             HaltsIn (fun s => (exists err, s = Return err) \/ Q s)
               (setRlimit_loop sys rls resources)).
  { induction rls as [|rl rest IH]; intros resources; simpl; [halts_in|].
    apply HaltsIn_bind; [halts_in|intros err].
    apply HaltsIn_bind; [apply HaltsIn_check; eauto|intros _].
    destruct (already_set resources (Type_ rl)); [apply HaltsIn_halt; eauto|apply IH]. }
  apply H.
Qed.

Lemma HaltsIn_setenv_PATH Q env : HaltsIn Q (setenv_PATH env).
Proof.
  induction env as [|e rest IH]; simpl; [halts_in|].
  apply HaltsIn_bind; [halts_in|intros _; apply IH].
Qed.

Lemma HaltsIn_attach_terminal Q engine :
  (forall e, Q (Return (Some e))) -> HaltsIn Q (attach_terminal sys engine).
Proof.
  intros HQ. unfold attach_terminal.
  repeat (apply HaltsIn_bind;
          [first [apply HaltsIn_ask | apply HaltsIn_check; intros; apply HQ]
          |intros ?]).
  destruct (negb _); [apply HaltsIn_halt, HQ|apply HaltsIn_ret].
Qed.

(** emptyProcess returns an error that is not nil, or stays in its signal
    loop. *)
Lemma emptyProcess_ends engine w :
  (exists e, fst (emptyProcess sys engine w) = Val (Some e)) \/
  fst (emptyProcess sys engine w) = Halt SignalLoop.
Proof.
  assert (Hb : EndsIn (fun s => (exists e, s = Return (Some e)) \/ s = SignalLoop)
                 (let* wr := masterConn_Write sys token_t in
                  do* check (Errorf_err "failed to pause process: ") (snd wr) in
                  let* rd := masterConn_Read sys in
                  do* check (Errorf_err "failed to receive ack from Smaster: ") (snd rd) in
                  do* tell EvConnClose in
                  do* tell EvSignalNotify in
                  let* err := ask (fun h => security_Configure sys h (OciSpec engine))
                                  EvSecurityConfigure in
                  do* check (Errorf_err "failed to apply security configuration: ") err in
                  halt SignalLoop : M (option error))).
  { unfold masterConn_Write, masterConn_Read.
    repeat (apply EndsIn_bind;
            [first [apply HaltsIn_ask | apply HaltsIn_tell
                   | apply HaltsIn_check; intros; left; eauto]
            |intros ?]).
    apply EndsIn_halt. by right. }
  unfold emptyProcess. rewrite call_outcome. simpl.
  destruct (Hb w) as (s & -> & [[e ->]| ->]); simpl; eauto.
Qed.

End ChildEnds.

(** X2. StartProcess never returns nil. When it returns, the error is not
    nil. Otherwise the image was replaced (outside the empty-process mode),
    the signal loop was entered (in the empty-process mode), or the
    argument list was empty and [args[0]] panicked. It ends in no other
    way. *)
Theorem StartProcess_ends (sys : Oracle) (engine : EngineOperations) (w : World) :
  match fst (StartProcess sys engine w) with
  | Val (Some _) => True
  | Halt Replaced => EmptyProcess engine = false
  | Halt SignalLoop => EmptyProcess engine = true
  | Halt (Panic msg) =>
      msg = "index out of range [0] with length 0" /\
      EmptyProcess engine = false /\ Args (OciProcess engine) = []
  | _ => False
  end.
Proof.
  assert (Hret : forall e, start_end engine (Return (Some e)))
    by (intros e; left; eauto).
  assert (Hb : exists s, fst (StartProcess sys engine w) = outcome (Halt s) /\
                         start_end engine s).
  { unfold StartProcess. rewrite call_outcome. simpl fst.
    match goal with
    | |- context [outcome (fst (?b w))] =>
        assert (He : EndsIn (start_end engine) b); [|destruct (He w) as (s & -> & Hs); eauto]
    end.
    apply EndsIn_bind.
    { destruct (negb _); [by apply HaltsIn_halt|apply HaltsIn_ret]. }
    intros _.
    apply EndsIn_bind; [apply HaltsIn_ask|intros err].
    apply EndsIn_bind; [by apply HaltsIn_check|intros _].
    apply EndsIn_bind; [apply HaltsIn_setRlimit|intros err'].
    apply EndsIn_bind; [by apply HaltsIn_check|intros _].
    destruct (EmptyProcess engine) eqn:Hmode.
    { intros w1. unfold bind.
      destruct (emptyProcess_ends sys engine w1) as [[e He]|He];
        destruct (emptyProcess sys engine w1) as [r w2]; simpl in He; subst r.
      - exists (Return (Some e)). split; [done|apply Hret].
      - exists SignalLoop. split; [done|]. right; right; left. done. }
    apply EndsIn_bind; [apply HaltsIn_setenv_PATH|intros _].
    destruct (Args (OciProcess engine)) as [|arg0 rest] eqn:Hargs.
    { apply EndsIn_halt. right; right; right. done. }
    apply EndsIn_bind; [apply HaltsIn_ask|intros [bpath err'']].
    apply EndsIn_bind; [by apply HaltsIn_check|intros _].
    apply EndsIn_bind.
    { destruct (negb _); [by apply HaltsIn_attach_terminal|apply HaltsIn_ret]. }
    intros _.
    unfold masterConn_Write, masterConn_Read.
    repeat (apply EndsIn_bind;
            [first [apply HaltsIn_ask | by apply HaltsIn_check]|intros ?]).
    match goal with |- EndsIn _ (match ?x with _ => _ end) => destruct x end.
    - apply EndsIn_bind; [apply HaltsIn_ask|intros wr].
      apply EndsIn_bind.
      { destruct (snd wr); [apply HaltsIn_tell|apply HaltsIn_ret]. }
      intros _. by apply EndsIn_halt.
    - apply EndsIn_halt. right; left. done. }
  destruct Hb as (s & -> & [[e ->]|[[-> Hm]|[[-> Hm]|(-> & Hm & Ha)]]]); simpl; done.
Qed.

(* ===================================================================== *)
(** ** A failed step is the last step *)
(* ===================================================================== *)

Section StopsRules.
Context (fatal : Event -> option error).

Lemma Stops_quiet {A} (m : M A) :
  Grows (fun e => bool_decide (fatal e = None)) m -> Stops fatal m.
Proof.
  intros Hm w. destruct (Hm w) as (evs & Hw & Hevs).
  exists evs. split; [done|]. left.
  eapply Forall_impl; [exact Hevs|]. intros e He. by apply bool_decide_eq_true in He.
Qed.

Lemma Stops_silent {A} (m : M A) :
  (forall w, w_trace (snd (m w)) = w_trace w) -> Stops fatal m.
Proof.
  intros Hm w. exists []. rewrite app_nil_r. split; [apply Hm|]. left. constructor.
Qed.

Lemma Stops_ret {A} (a : A) : Stops fatal (ret a).
Proof. by apply Stops_silent. Qed.

Lemma Stops_halt {A} (s : Stop) : Stops fatal (@halt A s).
Proof. by apply Stops_silent. Qed.

Lemma Stops_check (wrap : error -> error) (err : option error) :
  Stops fatal (check wrap err).
Proof. apply Stops_silent. intros w. by destruct err. Qed.

Lemma Stops_get_State : Stops fatal get_State.
Proof. by apply Stops_silent. Qed.

Lemma Stops_annotate key value : Stops fatal (annotate key value).
Proof.
  apply Stops_silent. intros w. unfold annotate.
  by destruct (Annotations (w_State w)).
Qed.

Lemma Stops_tell (e : Event) : fatal e = None -> Stops fatal (tell e).
Proof.
  intros He w. exists [e]. split; [done|]. left. by constructor.
Qed.

Lemma Stops_bind {A B} (m : M A) (k : A -> M B) :
  Stops fatal m -> (forall a, Stops fatal (k a)) -> Stops fatal (bind m k).
Proof.
  intros Hm Hk w. unfold bind.
  destruct (Hm w) as (evs & Hw & Hcases).
  destruct (m w) as [[a|s] w1]; simpl in *.
  - destruct Hcases as [Hq|(pre & ev & e & _ & _ & _ & [=])].
    destruct (Hk a w1) as (evs' & Hw' & Hcases').
    exists (evs ++ evs'). rewrite Hw', Hw, app_assoc. split; [done|].
    destruct Hcases' as [Hq'|(pre & ev & e & -> & Hpre & Hev & Hr)].
    + left. by apply Forall_app.
    + right. exists (evs ++ pre), ev, e. rewrite app_assoc.
      split; [done|]. split; [by apply Forall_app|done].
  - exists evs. simpl. split; [done|].
    destruct Hcases as [Hq|(pre & ev & e & -> & Hpre & Hev & [= ->])]; [by left|].
    right. by exists pre, ev, e.
Qed.

(** An oracle call whose failure is returned by what follows it. *)
Lemma Stops_ask {A B} (f : list Event -> A) (ev : A -> Event) (k : A -> M B) :
  (forall r, Stops fatal (k r)) ->
  (forall r e, fatal (ev r) = Some e ->
     forall w, k r w = (Halt (Return (Some e)), w)) ->
  Stops fatal (bind (ask f ev) k).
Proof.
  intros Hk Hf w. unfold bind, ask.
  set (r := f (w_trace w)).
  destruct (fatal (ev r)) as [e|] eqn:Hev.
  - rewrite (Hf r e Hev). exists [ev r]. split; [done|]. right.
    exists [], (ev r), e. by repeat split.
  - destruct (Hk r (emit (ev r) w)) as (evs & Hw & Hcases).
    exists (ev r :: evs). rewrite Hw. simpl. rewrite <- app_assoc.
    split; [done|].
    destruct Hcases as [Hq|(pre & ev' & e & -> & Hpre & Hev' & Hr)].
    + left. by constructor.
    + right. exists (ev r :: pre), ev', e. repeat split; try done. by constructor.
Qed.

(** A call whose result is checked at once: [if err := f(); err != nil
    { return err }]. *)
Lemma Stops_call_check {B} (body : M (option error)) (k : M B) :
  Stops fatal body -> Stops fatal k ->
  Stops fatal (let* err := call body in do* check id err in k).
Proof.
  intros Hb Hk w. unfold bind, call.
  destruct (Hb w) as (evs & Hw & Hcases).
  destruct (body w) as [[err|s] w1]; simpl in *.
  - destruct Hcases as [Hq|(pre & ev & e & _ & _ & _ & [=])].
    destruct err as [e|]; simpl.
    + exists evs. split; [done|]. by left.
    + destruct (Hk w1) as (evs' & Hw' & Hcases').
      exists (evs ++ evs'). rewrite Hw', Hw, app_assoc. split; [done|].
      destruct Hcases' as [Hq'|(pre & ev & e & -> & Hpre & Hev & Hr)].
      * left. by apply Forall_app.
      * right. exists (evs ++ pre), ev, e. rewrite app_assoc.
        split; [done|]. split; [by apply Forall_app|done].
  - destruct s as [[e|]| | | | | | |]; simpl;
      try (exists evs; split; [done|];
           destruct Hcases as [Hq|(pre & ev & e' & ? & ? & ? & [=])]; by left).
    + exists evs. split; [done|].
      destruct Hcases as [Hq|(pre & ev & e' & -> & Hpre & Hev & [= <-])];
        [by left|].
      right. by exists pre, ev, e.
    + destruct (Hk w1) as (evs' & Hw' & Hcases').
      destruct Hcases as [Hq|(pre & ev & e' & ? & ? & ? & [=])].
      exists (evs ++ evs'). rewrite Hw', Hw, app_assoc. split; [done|].
      destruct Hcases' as [Hq'|(pre & ev & e & -> & Hpre & Hev & Hr)].
      * left. by apply Forall_app.
      * right. exists (evs ++ pre), ev, e. rewrite app_assoc.
        split; [done|]. split; [by apply Forall_app|done].
Qed.

End StopsRules.

Lemma last_step_split {A} (pre : list A) (x : A) tr1 y tr2 (P : A -> Prop) :
  Forall P pre -> ~ P y -> pre ++ [x] = tr1 ++ y :: tr2 ->
  tr2 = [] /\ y = x.
Proof.
  intros Hpre Hy Heq.
  destruct tr2 as [|z tr2 _] using rev_ind.
  - by apply app_inj_tail in Heq as [_ ->].
  - change (tr1 ++ y :: tr2 ++ [z]) with (tr1 ++ (y :: tr2) ++ [z]) in Heq.
    rewrite app_assoc in Heq. apply app_inj_tail in Heq as [-> _].
    apply Forall_app in Hpre as [_ Hpre]. by inversion Hpre.
Qed.

(** From [Stops] to the statement about any failed step of a run. *)
Lemma Stops_call_last (fatal : Event -> option error) (body : M (option error)) w :
  Stops fatal body ->
  exists evs,
    w_trace (snd (call body w)) = w_trace w ++ evs /\
    forall tr1 ev tr2 e,
      evs = tr1 ++ ev :: tr2 -> fatal ev = Some e ->
      tr2 = [] /\ fst (call body w) = Val (Some e).
Proof.
  intros Hb. destruct (Hb w) as (evs & Hw & Hcases).
  exists evs. rewrite call_outcome. simpl. split; [done|].
  intros tr1 ev tr2 e Heq Hev.
  destruct Hcases as [Hq|(pre & ev' & e' & -> & Hpre & Hev' & Hr)].
  - exfalso. rewrite Heq in Hq. apply Forall_app in Hq as [_ Hq].
    inversion Hq; congruence.
  - destruct (last_step_split pre ev' tr1 ev tr2 _ Hpre) as [-> ->];
      [congruence|done|].
    rewrite Hr. simpl. split; [done|]. congruence.
Qed.

Ltac stops_quiet :=
  apply Stops_quiet, Emits_Grows;
  unfold masterConn_Write, masterConn_Read; emits.

Section ChildStops.
Variable sys : Oracle.

Lemma Stops_setRlimit_loop rls : forall resources,
  Stops (fatal_setup sys) (setRlimit_loop sys rls resources).
Proof.
  induction rls as [|rl rest IH]; intros resources; simpl; [apply Stops_ret|].
  apply Stops_ask.
  - intros r. apply Stops_bind; [apply Stops_check|intros _].
    destruct (already_set resources (Type_ rl)); [apply Stops_halt|apply IH].
  - intros [e0|] e; simpl; [|done]. by intros [= <-].
Qed.

Lemma Stops_attach_terminal engine :
  Stops (fatal_setup sys) (attach_terminal sys engine).
Proof.
  unfold attach_terminal.
  repeat (apply Stops_ask;
          [intros ?; apply Stops_bind; [apply Stops_check|intros _]
          |intros [e0|] e; simpl; [by intros [= <-]|done]]).
  apply Stops_ask.
  - intros errno. destruct (negb _); [apply Stops_halt|apply Stops_ret].
  - intros errno e. simpl. destruct (negb (errno =? 0)%Z); [|done].
    by intros [= <-].
Qed.

Lemma Stops_StartProcess_body engine :
  Stops (fatal_setup sys)
    (let cwd := Cwd (OciProcess engine) in
     let cwd := if String.eqb cwd "" then "/" else cwd in
     do* (if negb (filepath_IsAbs cwd)
          then return_ (Some (errorString "cwd property must be an absolute path"))
          else ret tt) in
     let* err := ask (fun h => os_Chdir sys h cwd) (EvChdir cwd) in
     do* check (Errorf_err "can't enter in current working directory: ") err in
     let* err := setRlimit sys (Rlimits (OciProcess engine)) in
     do* check id err in
     if EmptyProcess engine then
       let* err := emptyProcess sys engine in return_ err
     else
       do* setenv_PATH (Env (OciProcess engine)) in
       match Args (OciProcess engine) with
       | [] => halt (Panic "index out of range [0] with length 0")
       | arg0 :: rest =>
           let* (bpath, err) := ask (fun h => exec_LookPath sys h arg0)
                                    (EvLookPath arg0) in
           do* check (fun e => errorString (Error e)) err in
           do* (if negb (MasterPts engine =? -1)%Z
                then attach_terminal sys engine
                else ret tt) in
           handshake_and_exec sys (OciSpec (with_Args (bpath :: rest) engine))
             bpath (bpath :: rest) (Env (OciProcess engine))
       end : M (option error)).
Proof.
  cbv zeta.
  apply Stops_bind.
  { destruct (negb _); [apply Stops_halt|apply Stops_ret]. }
  intros _. apply Stops_ask.
  2:{ intros [e0|] e; simpl; [by intros [= <-]|done]. }
  intros err. apply Stops_bind; [apply Stops_check|intros _].
  apply (Stops_call_check (fatal_setup sys)
           (setRlimit_loop sys (Rlimits (OciProcess engine)) [])).
  { apply Stops_setRlimit_loop. }
  destruct (EmptyProcess engine).
  { apply Stops_bind; [|intros ?; apply Stops_halt].
    unfold emptyProcess. stops_quiet. }
  apply Stops_bind.
  { apply Stops_quiet, Emits_Grows. by apply Emits_setenv_PATH. }
  intros _.
  destruct (Args (OciProcess engine)) as [|arg0 rest]; [apply Stops_halt|].
  apply Stops_ask.
  2:{ intros [bpath [e0|]] e; simpl; [by intros [= <-]|done]. }
  intros [bpath err']. apply Stops_bind; [apply Stops_check|intros _].
  apply Stops_bind.
  { destruct (negb _); [apply Stops_attach_terminal|apply Stops_ret]. }
  intros _. unfold handshake_and_exec. stops_quiet.
Qed.

End ChildStops.

(** X3. A configuration step of StartProcess that fails (chdir, a limit-set
    call, the path lookup, a dup3, a close, setsid, the ioctl that sets the
    controlling terminal) is the last thing StartProcess does, and
    StartProcess returns its error: wrapped for chdir and the ioctl, as a
    plain message for the lookup, unchanged for the others. *)
Theorem StartProcess_setup_failure_last (sys : Oracle) (engine : EngineOperations) (w : World) :
  exists evs,
    w_trace (snd (StartProcess sys engine w)) = w_trace w ++ evs /\
    forall tr1 ev tr2 e,
      evs = tr1 ++ ev :: tr2 -> fatal_setup sys ev = Some e ->
      tr2 = [] /\ fst (StartProcess sys engine w) = Val (Some e).
Proof.
  apply (Stops_call_last (fatal_setup sys)).
  apply (Stops_StartProcess_body sys engine).
Qed.

Section ControllerStops.
Variable sys : Oracle.

Lemma Stops_run_Prestart hooks : Stops fatal_controller (run_Prestart sys hooks).
Proof.
  induction hooks as [|h rest IH]; simpl; [apply Stops_ret|].
  apply Stops_bind; [apply Stops_get_State|intros st].
  apply Stops_ask.
  - intros r. apply Stops_bind; [apply Stops_check|intros _; apply IH].
  - intros [e0|] e; simpl; [by intros [= <-]|done].
Qed.

Lemma Stops_updateState {B} (status : string) (k : option error -> M B) :
  (forall r, Stops fatal_controller (k r)) ->
  (forall e w, k (Some e) w = (Halt (Return (Some e)), w)) ->
  Stops fatal_controller (bind (updateState sys status) k).
Proof.
  intros Hk Hf w.
  change (bind (updateState sys status) k w)
    with (bind (ask (fun h => engine_updateState sys h status (w_State w))
                    (EvUpdateState status (w_State w))) k w).
  revert w. 
  intros w. apply (Stops_ask fatal_controller); [done|].
  intros [e0|] e; simpl; [intros [= <-]; apply Hf|done].
Qed.

Lemma Stops_PreStartProcess_body engine pid :
  Stops fatal_controller
    (do* tell (EvKill pid "SIGSTOP") in
     do* (match OciHooks engine with
          | Some hooks => run_Prestart sys (Prestart hooks)
          | None => ret tt
          end) in
     let master := if negb (MasterPts engine =? -1)%Z then MasterPts engine else 0%Z in
     let* (file, err) := ask (fun h => instance_Get sys h (ContainerID engine))
                             (EvInstanceGet (ContainerID engine)) in
     match file with
     | None => halt (Panic "invalid memory address or nil pointer dereference")
     | Some f =>
         let socket := filepath_Join sys (filepath_Dir sys (Path f))
                         (ContainerID engine +:+ ".sock") in
         do* annotate "io.sylabs.runtime.oci.attach-socket" socket in
         let* err := ask (fun h => unix_CreateSocket sys h socket)
                         (EvCreateSocket socket) in
         do* check id err in
         let* err := updateState sys "created" in
         do* check id err in
         do* tell (EvGoHandleStream master) in
         let* wr := masterConn_Write sys token_s in
         do* check (Errorf_err "failed to send ACK to start process: ") (snd wr) in
         let* rd := masterConn_Read sys in
         if negb (is_EOF (snd rd))
         then return_ (snd rd) : M (option error)
         else return_ None
     end).
Proof.
  cbv zeta.
  apply Stops_bind; [by apply Stops_tell|intros _].
  apply Stops_bind.
  { destruct (OciHooks engine); [apply Stops_run_Prestart|apply Stops_ret]. }
  intros _. apply Stops_ask; [|by intros [file err] e].
  intros [[f|] err]; [|apply Stops_halt].
  apply Stops_bind; [apply Stops_annotate|intros _].
  apply Stops_ask.
  2:{ intros [e0|] e; simpl; [by intros [= <-]|done]. }
  intros err'. apply Stops_bind; [apply Stops_check|intros _].
  apply Stops_updateState; [|done].
  intros err''. apply Stops_bind; [apply Stops_check|intros _].
  apply Stops_bind; [by apply Stops_tell|intros _].
  unfold masterConn_Write, masterConn_Read.
  apply Stops_ask.
  2:{ intros [n [e0|]] e; simpl; [by intros [= <-]|done]. }
  intros wr. apply Stops_bind; [apply Stops_check|intros _].
  apply Stops_ask; [|by intros [data err3] e].
  intros rd. destruct (negb _); apply Stops_halt.
Qed.

End ControllerStops.

(** X6. A step of PreStartProcess that fails before the wait on the
    handshake channel (a pre-start hook, the creation of the attach
    listener, the persisting of the state, the write of the ACK) is the last
    thing PreStartProcess does: no later hook runs, nothing is created or
    persisted after it, and PreStartProcess returns its error, wrapped with
    "failed to send ACK to start process" for the write and unchanged for
    the others. *)
Theorem PreStartProcess_failure_last (sys : Oracle) (engine : EngineOperations)
    (pid : Z) (w : World) :
  exists evs,
    w_trace (snd (PreStartProcess sys engine pid w)) = w_trace w ++ evs /\
    forall tr1 ev tr2 e,
      evs = tr1 ++ ev :: tr2 -> fatal_controller ev = Some e ->
      tr2 = [] /\ fst (PreStartProcess sys engine pid w) = Val (Some e).
Proof.
  apply (Stops_call_last fatal_controller).
  apply (Stops_PreStartProcess_body sys engine pid).
Qed.

(* ===================================================================== *)
(** ** Post-start hooks *)
(* ===================================================================== *)

Lemma run_Poststart_events (sys : Oracle) (hooks : list Hook) : forall w,
  exists answers,
    length answers = length hooks /\
    run_Poststart sys hooks w
      = (Val tt, extend w (poststart_events (w_State w) hooks answers)).
Proof.
  induction hooks as [|h rest IH]; intros w; simpl.
  - exists []. by rewrite extend_nil.
  - unfold bind at 1. unfold get_State at 1. rewrite bind_ask.
    set (r := exec_Hook sys (w_trace w) h (w_State w)).
    destruct r as [e|] eqn:Hr.
    + rewrite bind_tell.
      destruct (IH (emit (EvLog "warning" (Error e))
                      (emit (EvHook h (w_State w) (Some e)) w)))
        as (answers & Hlen & Heq).
      exists (Some e :: answers). split; [simpl; by rewrite Hlen|].
      rewrite Heq. rewrite !emit_extend, !extend_extend. reflexivity.
    + unfold bind at 1. unfold ret at 1.
      destruct (IH (emit (EvHook h (w_State w) None) w))
        as (answers & Hlen & Heq).
      exists (None :: answers). split; [simpl; by rewrite Hlen|].
      rewrite Heq. rewrite !emit_extend, !extend_extend. reflexivity.
Qed.

(** X5. PostStartProcess persists the state running first. If that fails
    it returns the error and runs no hook. Otherwise it runs every
    post-start hook, in declared order, each once, on the same state; a
    hook that fails is followed by a warning and the next hook still runs;
    the result is nil whatever the hooks answer. *)
Theorem PostStartProcess_hooks_never_fail (sys : Oracle) (engine : EngineOperations)
    (pid : Z) (w : World) :
  match engine_updateState sys (w_trace w) "running" (w_State w) with
  | Some e =>
      PostStartProcess sys engine pid w
        = (Val (Some e),
           extend w [EvUpdateState "running" (w_State w) (Some e)])
  | None =>
      exists answers,
        length answers = length (hooks_of Poststart engine) /\
        PostStartProcess sys engine pid w
          = (Val None,
             extend w (EvUpdateState "running" (w_State w) None
                       :: poststart_events (w_State w)
                            (hooks_of Poststart engine) answers))
  end.
Proof.
  unfold PostStartProcess, call, hooks_of.
  match goal with
  | |- context [bind (updateState sys ?st) ?k w] =>
      change (bind (updateState sys st) k w)
        with (bind (ask (fun h => engine_updateState sys h st (w_State w))
                        (EvUpdateState st (w_State w))) k w)
  end.
  rewrite bind_ask.
  destruct (engine_updateState sys (w_trace w) "running" (w_State w)) as [e|].
  { reflexivity. }
  unfold bind at 1. unfold check at 1, ret at 1. cbv beta iota.
  unfold bind at 1.
  destruct (OciHooks engine) as [hooks|].
  - destruct (run_Poststart_events sys (Poststart hooks)
                (emit (EvUpdateState "running" (w_State w) None) w))
      as (answers & Hlen & Heq).
    exists answers. split; [done|]. rewrite Heq. simpl.
    by rewrite emit_extend, extend_extend.
  - exists []. split; [done|]. simpl. by rewrite emit_extend.
Qed.

(* ===================================================================== *)
(** ** The empty-process mode *)
(* ===================================================================== *)

Lemma ShapedBy_bind P S {A} (m : M A) (k : A -> M (option error)) :
  Grows P m -> (forall a, ShapedBy P S (k a)) -> ShapedBy P S (bind m k).
Proof.
  intros Hm Hk w. unfold bind.
  destruct (Hm w) as (evs & Hw & Hevs).
  destruct (m w) as [[a|s] w1]; simpl in Hw.
  - destruct (Hk a w1) as (pre & tail & Hw' & Hpre & Htail).
    exists (evs ++ pre), tail. rewrite Hw', Hw, <- !app_assoc.
    split; [done|]. split; [by apply Forall_app|done].
  - exists evs, []. rewrite app_nil_r. split; [done|]. split; [done|by left].
Qed.

Lemma ShapedBy_call P S (body : M (option error)) :
  ShapedBy P S body -> ShapedBy P S (call body).
Proof.
  intros Hm w. rewrite call_outcome. simpl. rewrite outcome_idem. apply Hm.
Qed.

Lemma emptyProcess_shape (sys : Oracle) (engine : EngineOperations) (w : World) :
  exists tail,
    snd (emptyProcess sys engine w) = extend w tail /\
    EmptyShape tail (fst (emptyProcess sys engine w)).
Proof.
  unfold emptyProcess, call, masterConn_Write, masterConn_Read, bind, ask, check,
    return_, halt, ret, tell.
  destruct (conn_Write sys (w_trace w) token_t) as [n [e|]]; simpl.
  { eexists; split; [reflexivity|]. constructor. }
  destruct (conn_Read sys _ 1%Z) as [data [e|]]; simpl.
  { eexists. rewrite !emit_extend, !extend_extend. split; [reflexivity|].
    constructor. }
  destruct (security_Configure sys _ _) as [e|]; simpl.
  { eexists. rewrite !emit_extend, !extend_extend. split; [reflexivity|].
    constructor. }
  eexists. rewrite !emit_extend, !extend_extend. split; [reflexivity|].
  constructor.
Qed.

(** X4. In the empty-process mode StartProcess never attempts exec. It
    applies the security policy only after the pause token was written and
    the resume token read without error, the connection closed and the
    signals registered, and that is its last step: a refused policy is
    returned as an error, an applied one leads into the signal loop. *)
Theorem StartProcess_empty_mode (sys : Oracle) (engine : EngineOperations) (w : World) :
  EmptyProcess engine = true ->
  exists evs,
    w_trace (snd (StartProcess sys engine w)) = w_trace w ++ evs /\
    Forall (fun e => is_exec e = false) evs /\
    forall tr1 x tr2,
      evs = tr1 ++ EvSecurityConfigure x :: tr2 ->
      tr2 = [] /\
      (exists pre n data,
         Forall (fun e => is_setup e = true) pre /\
         tr1 = pre ++ [EvConnWrite token_t (n, None);
                       EvConnRead 1%Z (data, None);
                       EvConnClose; EvSignalNotify]) /\
      fst (StartProcess sys engine w)
        = match x with
          | Some e =>
              Val (Some (Errorf_err "failed to apply security configuration: " e))
          | None => Halt SignalLoop
          end.
Proof.
  intros Hmode.
  assert (Hs : ShapedBy is_setup EmptyShape (StartProcess sys engine)).
  { unfold StartProcess. apply ShapedBy_call.
    apply ShapedBy_bind; [apply Emits_Grows; emits|intros _].
    apply ShapedBy_bind; [apply Emits_Grows; emits|intros err].
    apply ShapedBy_bind; [apply Emits_Grows; emits|intros _].
    apply ShapedBy_bind;
      [apply Emits_Grows; by apply Emits_setRlimit|intros err'].
    apply ShapedBy_bind; [apply Emits_Grows; emits|intros _].
    rewrite Hmode. intros w1. unfold bind.
    destruct (emptyProcess_shape sys engine w1) as (tail & Hw & Hshape).
    destruct (emptyProcess sys engine w1) as [r w2]. simpl in *. subst w2.
    exists [], tail. simpl.
    destruct r as [err''|s]; simpl.
    - split; [done|]. split; [constructor|]. by right.
    - split; [done|]. split; [constructor|]. right.
      inversion Hshape; subst; simpl; constructor. }
  destruct (Hs w) as (pre & tail & Hw & Hpre & Htail).
  assert (Hout : outcome (fst (StartProcess sys engine w))
                 = fst (StartProcess sys engine w)).
  { unfold StartProcess. apply outcome_call. }
  rewrite Hout in Htail. clear Hout.
  exists (pre ++ tail). split; [done|]. clear Hw. split.
  - apply Forall_app. split.
    + eapply Forall_impl; [exact Hpre|]. intros e He. by destruct e.
    + destruct Htail as [->|Hshape]; [constructor|].
      inversion Hshape; subst; by repeat constructor.
  - intros tr1 x tr2 Heq.
    destruct (split_in_tail pre tail tr1 (EvSecurityConfigure x) tr2 Hpre)
      as (s1 & -> & ->); [done..|].
    destruct Htail as [Hnil|Hshape]; [by destruct s1|].
    inversion Hshape; subst; split_tail.
    + split; [done|]. split; [|done]. by eexists pre, _, _.
    + split; [done|]. split; [|done]. by eexists pre, _, _.
Qed.

Lemma StartProcess_empty_mode_witness :
  exists evs,
    w_trace (snd (StartProcess ok_sys (empty_engine "/") w0)) = w_trace w0 ++ evs /\
    Forall (fun e => is_exec e = false) evs /\
    forall tr1 x tr2,
      evs = tr1 ++ EvSecurityConfigure x :: tr2 ->
      tr2 = [] /\
      (exists pre n data,
         Forall (fun e => is_setup e = true) pre /\
         tr1 = pre ++ [EvConnWrite token_t (n, None);
                       EvConnRead 1%Z (data, None);
                       EvConnClose; EvSignalNotify]) /\
      fst (StartProcess ok_sys (empty_engine "/") w0)
        = match x with
          | Some e =>
              Val (Some (Errorf_err "failed to apply security configuration: " e))
          | None => Halt SignalLoop
          end.
Proof.
  apply (StartProcess_empty_mode ok_sys (empty_engine "/") w0). reflexivity.
Defined.

(* ===================================================================== *)
(** ** The order of the controller's steps *)
(* ===================================================================== *)

Lemma controller_tail_shape (sys : Oracle) (socket : string) (master : Z) (w : World) :
  exists tail,
    snd (controller_tail sys socket master w) = extend w tail /\
    ControllerShape socket (w_State w) master tail
      (outcome (fst (controller_tail sys socket master w))).
Proof.
  unfold controller_tail, updateState, masterConn_Write, masterConn_Read, bind,
    ask, check, return_, halt, ret, tell, get_State.
  destruct (unix_CreateSocket sys (w_trace w) socket) as [e|]; simpl.
  { eexists; split; [reflexivity|]. constructor. }
  destruct (engine_updateState sys _ "created" (w_State w)) as [e|]; simpl.
  { eexists. rewrite !emit_extend, !extend_extend. split; [reflexivity|].
    constructor. }
  destruct (conn_Write sys _ token_s) as [n [e|]]; simpl.
  { eexists. rewrite !emit_extend, !extend_extend. split; [reflexivity|].
    constructor. }
  destruct (conn_Read sys _ 1%Z) as [data err]; simpl.
  eexists. rewrite !emit_extend, !extend_extend.
  pose proof (CS_waited socket (w_State w) master n data err) as Hs.
  unfold after_read in Hs.
  destruct (is_EOF err); simpl; (split; [reflexivity|exact Hs]).
Qed.

(** X7. PreStartProcess writes on the handshake channel at most once, and
    what it writes is the token s. The write comes only after the instance
    lookup gave a file, the attach listener was created on the path derived
    from it, the state created was persisted with that path under the
    attach-socket annotation, and the accept loop was started on the master
    stream. *)
Theorem PreStartProcess_ack_after_created (sys : Oracle) (engine : EngineOperations)
    (pid : Z) (w : World) :
  exists evs,
    w_trace (snd (PreStartProcess sys engine pid w)) = w_trace w ++ evs /\
    forall tr1 p r tr2,
      evs = tr1 ++ EvConnWrite p r :: tr2 ->
      p = token_s /\
      Forall (fun e => is_conn_write e = false) (tr1 ++ tr2) /\
      exists t0 f err st m,
        tr1 = t0 ++ [EvInstanceGet (ContainerID engine) (Some f, err);
                     EvCreateSocket (attach_socket sys engine f) None;
                     EvUpdateState "created" st None;
                     EvGoHandleStream (master_of engine)] /\
        Annotations st = Some m /\
        m !! "io.sylabs.runtime.oci.attach-socket"
          = Some (attach_socket sys engine f).
Proof.
  unfold PreStartProcess. rewrite call_outcome. simpl snd.
  match goal with |- context [snd (?b w)] => remember (b w) as R eqn:HR end.
  rewrite bind_tell in HR.
  match type of HR with
  | _ = bind ?m ?k ?w1 =>
      destruct (bind_emits not_conn_write m k w1) as (evh & Hevh & [[[] Hb]|[s Hb]])
  end.
  { destruct (OciHooks engine); [by apply Emits_run_Prestart|emits]. }
  2:{ rewrite Hb in HR. subst R. simpl. exists (EvKill pid "SIGSTOP" :: evh).
      split; [by rewrite <- app_assoc|].
      intros tr1 p r tr2 Heq. exfalso.
      assert (Hall : Forall (fun e => not_conn_write e = true)
                       (EvKill pid "SIGSTOP" :: evh)) by (by constructor).
      rewrite Heq in Hall. apply Forall_app in Hall as [_ Hall].
      inversion Hall; discriminate. }
  rewrite Hb in HR. clear Hb.
  rewrite emit_extend, extend_extend, bind_ask in HR.
  assert (Hpre : Forall (fun e => not_conn_write e = true)
                   ([EvKill pid "SIGSTOP"] ++ evh)) by (by constructor).
  remember ([EvKill pid "SIGSTOP"] ++ evh) as pre eqn:Hdef. clear Hdef Hevh evh.
  destruct (instance_Get sys _ (ContainerID engine)) as [[f|] err] eqn:Hget.
  2:{ subst R. simpl. eexists (pre ++ [_]). rewrite <- !app_assoc.
      split; [reflexivity|].
      intros tr1 p r tr2 Heq. exfalso.
      assert (Hall : Forall (fun e => not_conn_write e = true)
                       (pre ++ [EvInstanceGet (ContainerID engine) (None, err)])).
      { apply Forall_app. split; [done|by repeat constructor]. }
      rewrite Heq in Hall. apply Forall_app in Hall as [_ Hall].
      inversion Hall; discriminate. }
  rewrite bind_annotate in HR. simpl in HR.
  destruct (Annotations (w_State w)) as [m|] eqn:Hann.
  2:{ subst R. simpl. eexists (pre ++ [_]). rewrite <- !app_assoc.
      split; [reflexivity|].
      intros tr1 p r tr2 Heq. exfalso.
      assert (Hall : Forall (fun e => not_conn_write e = true)
                       (pre ++ [EvInstanceGet (ContainerID engine) (Some f, err)])).
      { apply Forall_app. split; [done|by repeat constructor]. }
      rewrite Heq in Hall. apply Forall_app in Hall as [_ Hall].
      inversion Hall; discriminate. }
  fold (attach_socket sys engine f) in HR. fold (master_of engine) in HR.
  change (R = controller_tail sys (attach_socket sys engine f) (master_of engine)
                (set_State
                   {| Annotations :=
                        Some (<["io.sylabs.runtime.oci.attach-socket" :=
                                  attach_socket sys engine f]> m) |}
                   (emit (EvInstanceGet (ContainerID engine) (Some f, err))
                      (extend w pre)))) in HR.
  match type of HR with
  | _ = controller_tail _ _ _ ?w2 =>
      destruct (controller_tail_shape sys (attach_socket sys engine f)
                  (master_of engine) w2) as (tail & Hw & Hshape)
  end.
  rewrite <- HR in Hw, Hshape. rewrite Hw. simpl in *.
  exists (pre ++ EvInstanceGet (ContainerID engine) (Some f, err) :: tail).
  split; [by rewrite <- !app_assoc|].
  intros tr1 p r tr2 Heq.
  assert (Hpre' : Forall (fun e => not_conn_write e = true)
                    (pre ++ [EvInstanceGet (ContainerID engine) (Some f, err)])).
  { apply Forall_app. split; [done|by repeat constructor]. }
  change (pre ++ EvInstanceGet (ContainerID engine) (Some f, err) :: tail)
    with (pre ++ [EvInstanceGet (ContainerID engine) (Some f, err)] ++ tail) in Heq.
  rewrite app_assoc in Heq.
  destruct (split_after not_conn_write _ tail tr1 (EvConnWrite p r) tr2
              Hpre' eq_refl Heq) as (s1 & -> & ->).
  clear Heq.
  assert (Hquiet : Forall (fun e => is_conn_write e = false)
                     (pre ++ [EvInstanceGet (ContainerID engine) (Some f, err)])).
  { eapply Forall_impl; [exact Hpre'|]. intros e He. by destruct e. }
  inversion Hshape; subst; split_tail.
  - split; [done|]. split.
    { rewrite app_nil_r. apply Forall_app. split; [done|by repeat constructor]. }
    exists pre, f, err,
      {| Annotations :=
           Some (<["io.sylabs.runtime.oci.attach-socket" :=
                     attach_socket sys engine f]> m) |},
      (<["io.sylabs.runtime.oci.attach-socket" := attach_socket sys engine f]> m).
    rewrite <- app_assoc. split; [reflexivity|].
    split; [reflexivity|]. apply lookup_insert_eq.
  - split; [done|]. split.
    { apply Forall_app. split; [|by repeat constructor].
      apply Forall_app. split; [done|by repeat constructor]. }
    exists pre, f, err,
      {| Annotations :=
           Some (<["io.sylabs.runtime.oci.attach-socket" :=
                     attach_socket sys engine f]> m) |},
      (<["io.sylabs.runtime.oci.attach-socket" := attach_socket sys engine f]> m).
    rewrite <- app_assoc. split; [reflexivity|].
    split; [reflexivity|]. apply lookup_insert_eq.
Qed.

(* ===================================================================== *)
(** ** Broadcasters in the heap *)
(* ===================================================================== *)

Lemma unlocked_eta (mw : multiWriter) :
  mux mw = false -> {| mux := false; writers := writers mw |} = mw.
Proof. destruct mw; simpl. by intros ->. Qed.

(** Add as one step on the heap. *)
Lemma multiWriter_Add_eq (sys : Oracle) (a : nat) (x : Writer) (w : World) :
  multiWriter_Add sys a x w =
  match w_heap w !! a with
  | None =>
      (Halt (Panic "invalid memory address or nil pointer dereference"), w)
  | Some mw =>
      if mux mw then (Halt Deadlock, w)
      else
        match mutex_Lock sys (w_trace w) a with
        | Locked =>
            (Val tt,
             set_heap (<[a := {| mux := false; writers := writers mw ++ [x] |}]>
                         (w_heap w)) w)
        | LockBlocks => (Halt Blocked, w)
        end
  end.
Proof.
  unfold multiWriter_Add, bind, Lock, get_writers, set_writers, Unlock.
  destruct (w_heap w !! a) as [mw|]; [|done].
  destruct (mux mw); [done|].
  destruct (mutex_Lock sys (w_trace w) a); [|done]. simpl.
  rewrite lookup_insert_eq. simpl. rewrite lookup_insert_eq. simpl.
  rewrite lookup_insert_eq. simpl. unfold set_heap. simpl.
  by rewrite !insert_insert_eq.
Qed.

Section Restores.
Context {W St R : Type}.
Variable wWrite : W -> list byte -> St -> Res (Z * option error) * St.
Variable proj : St -> R.

(** What every returning destination call leaves as it was, a returning
    Write leaves as it was. *)
Lemma Write_loop_preserves ws p : forall st r st',
  (forall w st r st', wWrite w p st = (Val r, st') -> proj st' = proj st) ->
  Write_loop wWrite ws p st = (Val r, st') -> proj st' = proj st.
Proof.
  induction ws as [|w rest IH]; intros st r st' Hd; simpl.
  - by intros [= _ <-].
  - destruct (wWrite w p st) as [[[n [e|]]|s] st1] eqn:Hcall; simpl.
    + intros [= _ <-]. by eapply Hd.
    + destruct (negb (n =? len p)%Z).
      * intros [= _ <-]. by eapply Hd.
      * intros Hrest. rewrite (IH st1 r st' Hd Hrest). by eapply Hd.
    + intros [=].
Qed.

(** The loop over [ws1 ++ ws2] when every writer of [ws1] takes the
    bytes. *)
Lemma Write_loop_app ws1 ws2 p st st1 :
  Write_loop wWrite ws1 p st = (Val (len p, None), st1) ->
  Write_loop wWrite (ws1 ++ ws2) p st = Write_loop wWrite ws2 p st1.
Proof.
  revert st. induction ws1 as [|w rest IH]; intros st; simpl.
  - by intros [= <-].
  - destruct (wWrite w p st) as [[[n [e|]]|s] st'] eqn:Hcall; simpl;
      [intros [=]| |intros [=]].
    destruct (negb (n =? len p)%Z); [intros [=]|apply IH].
Qed.

End Restores.

Lemma Writer_Write_heap (sys : Oracle) (fuel : nat) :
  forall (x : Writer) (p : list byte) (w : World) r w',
    Writer_Write sys fuel x p w = (Val r, w') ->
    w_heap w' = w_heap w.
Proof.
  induction fuel as [|fuel IH]; intros x p w r w'; simpl; [intros [=]|].
  destruct x as [c| |a].
  - intros [= _ <-]. reflexivity.
  - intros [= _ <-]. reflexivity.
  - unfold multiWriter_Write, bind, Lock.
    destruct (w_heap w !! a) as [mw|] eqn:Hmw; [|intros [=]].
    destruct (mux mw) eqn:Hmux; [intros [=]|].
    destruct (mutex_Lock sys (w_trace w) a); [|intros [=]].
    unfold defer_, bind, get_writers. simpl. rewrite lookup_insert_eq. simpl.
    destruct (Write_loop (Writer_Write sys fuel) (writers mw) p _)
      as [[r1|s] w1] eqn:Hloop.
    2:{ destruct s; try (by intros [=]).
        destruct (Unlock a w1) as [[[]|s'] w2]; by intros [=]. }
    pose proof (Write_loop_preserves (Writer_Write sys fuel) w_heap
                  (writers mw) p _ r1 w1 (fun x st r st' => IH x p st r st') Hloop)
      as Hheap.
    simpl in Hheap.
    assert (HU : Unlock a w1
                 = (Val tt, set_heap (<[a := {| mux := false; writers := writers mw |}]>
                                        (w_heap w1)) w1)).
    { unfold Unlock. rewrite Hheap, lookup_insert_eq. reflexivity. }
    rewrite HU. intros [= _ <-]. simpl. rewrite Hheap, insert_insert_eq.
    rewrite unlocked_eta by done. by apply insert_id.
Qed.

(** X10. A Write that returns, with success or with an error, leaves every
    broadcaster of the heap as it found it: every lock it took is released
    and no list of writers has changed, however deep broadcasters are
    nested. *)
Theorem Writer_Write_restores_heap (sys : Oracle) (fuel : nat)
    (x : Writer) (p : list byte) (w : World) r w' :
  Writer_Write sys fuel x p w = (Val r, w') ->
  w_heap w' = w_heap w.
Proof.
  revert x w r w'. induction fuel as [|fuel IH]; intros x w r w'; simpl;
    [intros [=]|].
  destruct x as [c| |a]; [by intros [= _ <-]|by intros [= _ <-]|].
  destruct (w_heap w !! a) as [mw|] eqn:Hmw.
  2:{ unfold multiWriter_Write, bind, Lock. rewrite Hmw. intros [=]. }
  destruct (mux mw) eqn:Hmux.
  { unfold multiWriter_Write, bind, Lock. rewrite Hmw, Hmux. intros [=]. }
  rewrite (multiWriter_Write_unlocked sys _ a p w mw Hmw Hmux).
  destruct (mutex_Lock sys (w_trace w) a); [|intros [=]].
  unfold defer_.
  destruct (Write_loop (Writer_Write sys fuel) (writers mw) p _)
    as [[r1|s] w1] eqn:Hloop.
  2:{ destruct s; try (by intros [=]).
      destruct (Unlock a w1) as [[[]|s'] w2]; by intros [=]. }
  assert (Hheap : w_heap w1
                  = <[a := {| mux := true; writers := writers mw |}]> (w_heap w)).
  { apply (Write_loop_preserves (Writer_Write sys fuel) w_heap
             (writers mw) p _ r1 w1 (fun y st r' st' => IH y st r' st') Hloop). }
  assert (HU : Unlock a w1
               = (Val tt, set_heap (<[a := {| mux := false; writers := writers mw |}]>
                                      (w_heap w1)) w1)).
  { unfold Unlock. rewrite Hheap, lookup_insert_eq. reflexivity. }
  rewrite HU. intros [= _ <-]. simpl. rewrite Hheap, insert_insert_eq.
  rewrite unlocked_eta by done. by apply insert_id.
Qed.

Lemma Writer_Write_restores_heap_witness :
  w_heap (snd (Writer_Write ok_sys 3 (MultiW 0) token_t (snd (add_broadcaster w0))))
    = w_heap (snd (add_broadcaster w0)).
Proof.
  apply (Writer_Write_restores_heap ok_sys 3 (MultiW 0) token_t
           (snd (add_broadcaster w0)) (1%Z, None)).
  vm_compute. reflexivity.
Defined.

(** X11. A broadcaster that holds itself cannot be written to. Once the
    Write has the lock and the writers before the broadcaster in its own
    list have taken the bytes, the nested call finds the lock held by the
    call it is part of: the Write does not return, and the lock stays held.
    (When another goroutine keeps the lock, the Write waits at its first
    step; it does not return either.) *)
Theorem Write_reaching_itself_deadlocks (sys : Oracle) (fuel : nat) (a : nat)
    (p : list byte) (ws1 ws2 : list Writer) (w w1 : World) :
  w_heap w !! a = Some {| mux := false; writers := ws1 ++ MultiW a :: ws2 |} ->
  Write_loop (Writer_Write sys (S fuel)) ws1 p
    (locked a (ws1 ++ MultiW a :: ws2) w) = (Val (len p, None), w1) ->
  match mutex_Lock sys (w_trace w) a with
  | Locked =>
      Writer_Write sys (S (S fuel)) (MultiW a) p w = (Halt Deadlock, w1) /\
      w_heap w1 !! a = Some {| mux := true; writers := ws1 ++ MultiW a :: ws2 |}
  | LockBlocks =>
      Writer_Write sys (S (S fuel)) (MultiW a) p w = (Halt Blocked, w)
  end.
Proof.
  intros Hmw Hpre.
  assert (Hheap : w_heap w1 = w_heap (locked a (ws1 ++ MultiW a :: ws2) w)).
  { eapply (Write_loop_preserves (Writer_Write sys (S fuel)) w_heap); [|exact Hpre].
    intros x st r st'. apply Writer_Write_heap. }
  assert (Hlock : w_heap w1 !! a
                  = Some {| mux := true; writers := ws1 ++ MultiW a :: ws2 |}).
  { rewrite Hheap. unfold locked. simpl. by rewrite lookup_insert_eq. }
  change (Writer_Write sys (S (S fuel)) (MultiW a) p w)
    with (multiWriter_Write sys (Writer_Write sys (S fuel)) a p w).
  rewrite (multiWriter_Write_unlocked sys _ a p w _ Hmw eq_refl).
  destruct (mutex_Lock sys (w_trace w) a); [|done].
  split; [|done]. simpl writers.
  fold (locked a (ws1 ++ MultiW a :: ws2) w). unfold defer_.
  rewrite (Write_loop_app _ ws1 (MultiW a :: ws2) p _ w1 Hpre).
  cbn [Write_loop Writer_Write].
  unfold multiWriter_Write at 1, bind, Lock. rewrite Hlock. reflexivity.
Qed.

Lemma Write_reaching_itself_deadlocks_witness :
  Writer_Write ok_sys 2 (MultiW 0) token_t self_nested
    = (Halt Deadlock,
       emit (EvDestWrite 0 token_t (1%Z, None))
         (locked 0 [ConnW 0; MultiW 0] self_nested)) /\
  w_heap (emit (EvDestWrite 0 token_t (1%Z, None))
            (locked 0 [ConnW 0; MultiW 0] self_nested)) !! 0%nat
    = Some {| mux := true; writers := [ConnW 0] ++ MultiW 0 :: [] |}.
Proof.
  exact (Write_reaching_itself_deadlocks ok_sys 0 0 token_t [ConnW 0] []
           self_nested
           (emit (EvDestWrite 0 token_t (1%Z, None))
              (locked 0 [ConnW 0; MultiW 0] self_nested))
           eq_refl eq_refl).
Defined.

(* ===================================================================== *)
(** ** The order of the destinations *)
(* ===================================================================== *)





(* ===================================================================== *)
(** ** What the constructor copies *)
(* ===================================================================== *)

Lemma existsb_pointwise {A} (f g : A -> bool) (l : list A) :
  (forall x, f x = g x) -> existsb f l = existsb g l.
Proof.
  intros Hfg. induction l as [|x l IH]; simpl; [done|]. by rewrite Hfg, IH.
Qed.

(** [reaches] looks at the lists of writers only. *)
Lemma reaches_same_writers (h h' : gmap nat multiWriter) (b : nat) :
  (forall a, writers <$> (h !! a) = writers <$> (h' !! a)) ->
  forall fuel x, reaches h fuel x b = reaches h' fuel x b.
Proof.
  intros Hw. induction fuel as [|fuel IH]; intros x; simpl; [done|].
  destruct x as [c| |a]; try done. f_equal.
  specialize (Hw a).
  destruct (h !! a) as [mw|], (h' !! a) as [mw'|]; simpl in Hw; try done.
  injection Hw as ->. by apply existsb_pointwise.
Qed.

Lemma reaches_locked (h : gmap nat multiWriter) (a b : nat) (mw : multiWriter)
    (m : bool) (fuel : nat) (x : Writer) :
  h !! a = Some mw ->
  reaches (<[a := {| mux := m; writers := writers mw |}]> h) fuel x b
    = reaches h fuel x b.
Proof.
  intros Ha. apply reaches_same_writers. intros a'.
  destruct (decide (a = a')) as [<-|Hne].
  - by rewrite lookup_insert_eq, Ha.
  - by rewrite lookup_insert_ne.
Qed.

Lemma agree_off_emit (b : nat) (e : Event) (w1 w2 : World) :
  agree_off b w1 w2 -> agree_off b (emit e w1) (emit e w2).
Proof.
  intros (Ht & Hs & Hh). unfold agree_off, emit. simpl. by rewrite Ht.
Qed.

Lemma agree_off_insert (b a : nat) (mw : multiWriter) (w1 w2 : World) :
  agree_off b w1 w2 ->
  agree_off b (set_heap (<[a := mw]> (w_heap w1)) w1)
              (set_heap (<[a := mw]> (w_heap w2)) w2).
Proof.
  intros (Ht & Hs & Hh). unfold agree_off, set_heap. simpl.
  split; [done|]. split; [done|]. intros a' Ha'.
  destruct (decide (a = a')) as [<-|Hne].
  - by rewrite !lookup_insert_eq.
  - rewrite !lookup_insert_ne by done. by apply Hh.
Qed.

Lemma Unlock_agree (b a : nat) (w1 w2 : World) :
  agree_off b w1 w2 -> a <> b ->
  fst (Unlock a w1) = fst (Unlock a w2) /\
  agree_off b (snd (Unlock a w1)) (snd (Unlock a w2)).
Proof.
  intros Hag Hab. unfold Unlock.
  destruct Hag as (Ht & Hs & Hh). rewrite (Hh a Hab).
  destruct (w_heap w2 !! a) as [mw|]; [|done].
  destruct (mux mw); [|done]. simpl. split; [done|].
  by apply agree_off_insert.
Qed.

(** The loop of Write in two worlds that differ in [b] only, over writers
    that do not lead to [b]. *)
Lemma Write_loop_agree (sys : Oracle) (b : nat) (fuel : nat) (p : list byte) :
  (forall x w1 w2,
     agree_off b w1 w2 -> reaches (w_heap w1) fuel x b = false ->
     fst (Writer_Write sys fuel x p w1) = fst (Writer_Write sys fuel x p w2) /\
     agree_off b (snd (Writer_Write sys fuel x p w1))
                 (snd (Writer_Write sys fuel x p w2))) ->
  forall ws w1 w2,
    agree_off b w1 w2 ->
    existsb (fun y => reaches (w_heap w1) fuel y b) ws = false ->
    fst (Write_loop (Writer_Write sys fuel) ws p w1)
      = fst (Write_loop (Writer_Write sys fuel) ws p w2) /\
    agree_off b (snd (Write_loop (Writer_Write sys fuel) ws p w1))
                (snd (Write_loop (Writer_Write sys fuel) ws p w2)).
Proof.
  intros Hone. induction ws as [|x rest IH]; intros w1 w2 Hag Hex; simpl; [done|].
  simpl in Hex. apply orb_false_elim in Hex as [Hx Hrest].
  destruct (Hone x w1 w2 Hag Hx) as [Hr Hag'].
  destruct (Writer_Write sys fuel x p w1) as [r1 w1'] eqn:E1.
  destruct (Writer_Write sys fuel x p w2) as [r2 w2'] eqn:E2.
  simpl in Hr, Hag'. subst r2.
  destruct r1 as [[n [e|]]|s]; simpl; try done.
  destruct (negb (n =? len p)%Z); [done|].
  apply IH; [done|].
  by rewrite (Writer_Write_heap sys fuel x p w1 _ w1' E1).
Qed.

(** A Write that does not lead to [b] does the same in two worlds that
    differ in [b] only. *)
Lemma Writer_Write_agree (sys : Oracle) (b : nat) (p : list byte) :
  forall fuel x w1 w2,
    agree_off b w1 w2 -> reaches (w_heap w1) fuel x b = false ->
    fst (Writer_Write sys fuel x p w1) = fst (Writer_Write sys fuel x p w2) /\
    agree_off b (snd (Writer_Write sys fuel x p w1))
                (snd (Writer_Write sys fuel x p w2)).
Proof.
  induction fuel as [|fuel IH]; intros x w1 w2 Hag Hreach; simpl; [done|].
  destruct x as [c| |a].
  - unfold ask. simpl. destruct Hag as (Ht & Hs & Hh). rewrite Ht.
    split; [done|]. apply agree_off_emit. by repeat split.
  - done.
  - simpl in Hreach. apply orb_false_elim in Hreach as [Hab Hin].
    apply bool_decide_eq_false in Hab.
    pose proof Hag as (Ht & Hs & Hh).
    unfold multiWriter_Write, bind, Lock. rewrite <- (Hh a Hab), Ht.
    destruct (w_heap w1 !! a) as [mw|] eqn:Hmw; [|done].
    destruct (mux mw); [done|].
    destruct (mutex_Lock sys (w_trace w2) a); [|done].
    pose proof (agree_off_insert b a {| mux := true; writers := writers mw |}
                  w1 w2 Hag) as Hag1.
    unfold defer_, bind, get_writers. simpl. rewrite !lookup_insert_eq. simpl.
    destruct (Write_loop_agree sys b fuel p IH (writers mw) _ _ Hag1) as [Hr Hag2].
    { simpl. erewrite existsb_pointwise; [exact Hin|].
      intros y. by apply reaches_locked. }
    destruct (Write_loop (Writer_Write sys fuel) (writers mw) p
                (set_heap (<[a := {| mux := true; writers := writers mw |}]>
                             (w_heap w1)) w1)) as [r1 w1'].
    destruct (Write_loop (Writer_Write sys fuel) (writers mw) p
                (set_heap (<[a := {| mux := true; writers := writers mw |}]>
                             (w_heap w2)) w2)) as [r2 w2'].
    simpl in Hr, Hag2. subst r2.
    destruct (Unlock_agree b a w1' w2' Hag2 Hab) as [Hu Hag3].
    destruct r1 as [r|s].
    + destruct (Unlock a w1') as [u1 w1''], (Unlock a w2') as [u2 w2''].
      simpl in Hu, Hag3. subst u2. by destruct u1.
    + destruct s; try done.
      destruct (Unlock a w1') as [u1 w1''], (Unlock a w2') as [u2 w2''].
      simpl in Hu, Hag3. subst u2. by destruct u1.
Qed.

(** X8. The constructor copies one level. A broadcaster made from [ws]
    holds, in order, every plain writer of [ws] and, for every broadcaster
    of [ws], the writers that one holds at that moment; it sits at a fresh
    address. A writer added afterwards to a broadcaster [b] changes nothing
    in the list of the new one. It is out of the reach of a Write on the new
    one whenever no writer of that list leads to [b]: the Write then returns
    the same and writes the same with and without the Add. (A broadcaster
    that was nested two levels deep is itself in the list, and what is
    added to it afterwards is written to through the new one.) *)
Theorem MultiWriter_snapshot (sys : Oracle) (fuel : nat) (ws : list Writer)
    (b : nat) (x : Writer) (held : list Writer) (p : list byte) (w : World) :
  (forall a, In (MultiW a) ws -> is_Some (w_heap w !! a)) ->
  w_heap w !! b = Some {| mux := false; writers := held |} ->
  mutex_Lock sys (w_trace w) b = Locked ->
  exists a w1 w2,
    MultiWriter ws w = (Val a, w1) /\
    a <> b /\ w_heap w !! a = None /\
    w_heap w1 !! a = Some {| mux := false; writers := flatten (w_heap w) ws |} /\
    multiWriter_Add sys b x w1 = (Val tt, w2) /\
    w_heap w2 !! b = Some {| mux := false; writers := held ++ [x] |} /\
    w_heap w2 !! a = Some {| mux := false; writers := flatten (w_heap w) ws |} /\
    (reaches (w_heap w1) (S fuel) (MultiW a) b = false ->
     fst (Writer_Write sys (S fuel) (MultiW a) p w2)
       = fst (Writer_Write sys (S fuel) (MultiW a) p w1) /\
     w_trace (snd (Writer_Write sys (S fuel) (MultiW a) p w2))
       = w_trace (snd (Writer_Write sys (S fuel) (MultiW a) p w1))).
Proof.
  intros Hin Hb Hlock.
  destruct (MultiWriter_flattens ws w Hin) as (a & Ha & Hnew).
  assert (Hab : a <> b) by (intros ->; congruence).
  eexists a, _, _. split; [exact Hnew|]. split; [done|]. split; [done|].
  split; [simpl; by rewrite lookup_insert_eq|].
  split.
  { rewrite multiWriter_Add_eq. simpl.
    rewrite lookup_insert_ne by done. rewrite Hb. simpl. rewrite Hlock.
    reflexivity. }
  split; [simpl; by rewrite lookup_insert_eq|].
  split; [simpl; rewrite lookup_insert_ne by done; by rewrite lookup_insert_eq|].
  intros Hreach.
  match goal with
  | |- fst (_ ?w2) = fst (_ ?w1) /\ _ =>
      destruct (Writer_Write_agree sys b p (S fuel) (MultiW a) w1 w2)
        as [Hr (Ht & _)]
  end.
  - unfold agree_off, set_heap. simpl. split; [done|]. split; [done|].
    intros a' Ha'. by rewrite (lookup_insert_ne _ b a') by done.
  - exact Hreach.
  - by rewrite Hr, Ht.
Qed.

Lemma MultiWriter_snapshot_witness :
  exists a w1 w2,
    MultiWriter [ConnW 2; MultiW 1] (snd (add_broadcaster w0)) = (Val a, w1) /\
    a <> 1%nat /\ w_heap (snd (add_broadcaster w0)) !! a = None /\
    w_heap w1 !! a
      = Some {| mux := false;
                writers := flatten (w_heap (snd (add_broadcaster w0)))
                             [ConnW 2; MultiW 1] |} /\
    multiWriter_Add ok_sys 1 (ConnW 3) w1 = (Val tt, w2) /\
    w_heap w2 !! 1%nat = Some {| mux := false; writers := [ConnW 1] ++ [ConnW 3] |} /\
    w_heap w2 !! a
      = Some {| mux := false;
                writers := flatten (w_heap (snd (add_broadcaster w0)))
                             [ConnW 2; MultiW 1] |} /\
    (reaches (w_heap w1) 3 (MultiW a) 1 = false ->
     fst (Writer_Write ok_sys 3 (MultiW a) token_t w2)
       = fst (Writer_Write ok_sys 3 (MultiW a) token_t w1) /\
     w_trace (snd (Writer_Write ok_sys 3 (MultiW a) token_t w2))
       = w_trace (snd (Writer_Write ok_sys 3 (MultiW a) token_t w1))).
Proof.
  apply (MultiWriter_snapshot ok_sys 2 [ConnW 2; MultiW 1] 1 (ConnW 3) [ConnW 1]
           token_t (snd (add_broadcaster w0))).
  - intros a [Ha|[Ha|[]]]; [discriminate|]. injection Ha as <-.
    vm_compute. eauto.
  - vm_compute. reflexivity.
  - reflexivity.
Defined.

(** The list of a broadcaster made from [MultiW 1] alone does not lead to
    the broadcaster 1; the list of one made from a broadcaster that holds
    [MultiW 1] does, and client 5, added to broadcaster 1 afterwards, is
    written to through it. *)
Example MultiWriter_copies_one_level :
  reaches (w_heap (snd (MultiWriter [ConnW 2; MultiW 1] (snd (add_broadcaster w0)))))
    3 (MultiW 2) 1 = false /\
  reaches (w_heap (snd (MultiWriter [MultiW 0] (snd (add_broadcaster w0)))))
    3 (MultiW 2) 1 = true /\
  fst (write_through_kept_broadcaster w0) = Val (1%Z, None) /\
  w_trace (snd (write_through_kept_broadcaster w0))
    = [EvDestWrite 0 token_t (1%Z, None);
       EvDestWrite 1 token_t (1%Z, None);
       EvDestWrite 5 token_t (1%Z, None)].
Proof. repeat split; vm_compute; reflexivity. Qed.

(* ===================================================================== *)
(** ** What the accept loop wires *)
(* ===================================================================== *)

(** The loop from the counter [n], with the broadcaster [mw] holding [ws0]:
    it wires the clients [cs] and then stops. *)
Lemma handleStream_loop_wires (sys : Oracle) (master : Z) :
  forall (fuel : nat) (n : Z) (a : list (option Conn)) (mw : option nat)
         (w : World) (ws0 : list Writer),
    (-1 <= n <= 10)%Z -> length a = 10%nat ->
    match mw with
    | Some m => w_heap w !! m = Some {| mux := false; writers := ws0 |}
    | None => ws0 = []
    end ->
    let m := match mw with
             | Some m => m
             | None => fresh (dom (w_heap w))
             end in
    exists cs tail s w',
      handleStream_loop sys fuel master n a mw w = (Halt s, w') /\
      (Z.of_nat (length cs) <= Z.max 0 (9 - n))%Z /\
      w_trace w' = w_trace w ++ wired master m (bool_decide (mw = None)) cs ++ tail /\
      ((mw = None /\ cs = [] /\ w_heap w' = w_heap w) \/
       w_heap w' = <[m := {| mux := false; writers := ws0 ++ map ConnW cs |}]>
                     (w_heap w)) /\
      ((s = OutOfFuel /\ tail = []) \/
       (s = Blocked /\ tail = [] /\ net_Accept sys (w_trace w') = AcceptBlocks) \/
       (exists e, s = Exit 255 /\ tail = [EvAccept (inr e); EvLog "fatal" (Error e)]) \/
       (exists r, s = Panic "index out of range" /\ tail = [EvAccept r] /\
                  Z.of_nat (length cs) = Z.max 0 (9 - n)) \/
       (exists b, s = Blocked /\ tail = [EvAccept (inl b)] /\
                  (is_Some mw \/ cs <> []) /\
                  mutex_Lock sys (w_trace w') m = LockBlocks)).
Proof.
  induction fuel as [|fuel IH]; intros n a mw w ws0 Hn Ha Hmw m.
  { exists [], [], OutOfFuel, w. simpl. rewrite app_nil_r.
    split; [done|]. split; [lia|]. split; [done|]. split; [|by left].
    destruct mw as [m'|]; [right|by left].
    simpl. rewrite app_nil_r. symmetry. by apply insert_id. }
  remember (handleStream_loop sys (S fuel) master n a mw w) as R eqn:HR.
  simpl in HR. rewrite wrap_int_small in HR by lia.
  destruct (Z.eqb_spec (n + 1) maxClient) as [Heq|Hne].
  { unfold maxClient in Heq.
    destruct (IH (n + 1)%Z a mw w ws0) as (cs & tail & s & w' & Hrun & Hlen & Htr & Hheap & Hstop);
      [lia|done|done|].
    exists cs, tail, s, w'. split; [by rewrite HR|]. split; [lia|]. split; [done|].
    split; [done|].
    destruct Hstop as [Hs|[Hs|[Hs|[(r & Hs & Ht & Hl)|Hs]]]];
      [by left|by right; left|by right; right; left| |by right; right; right; right].
    right; right; right; left. exists r. split; [done|]. split; [done|]. lia. }
  unfold maxClient in Hne.
  unfold bind at 1 in HR. unfold l_Accept at 1 in HR.
  destruct (net_Accept sys (w_trace w)) as [r|] eqn:Hacc.
  2:{ exists [], [], Blocked, w. simpl. rewrite app_nil_r.
      split; [done|]. split; [lia|]. split; [done|].
      split; [|by right; left].
      destruct mw as [m'|]; [right|by left].
      simpl. rewrite app_nil_r. symmetry. by apply insert_id. }
  unfold bind at 1 in HR. unfold slice_store, len in HR. rewrite Ha in HR.
  destruct (decide (n = 10%Z)) as [->|Hn10].
  { simpl in HR.
    exists [], [EvAccept r], (Panic "index out of range"), (emit (EvAccept r) w).
    split; [done|]. split; [simpl; lia|]. split; [done|].
    split; [|right; right; right; left; by exists r].
    destruct mw as [m'|]; [right|by left].
    simpl. rewrite app_nil_r. symmetry. by apply insert_id. }
  replace ((0 <=? n + 1)%Z && (n + 1 <? Z.of_nat 10)%Z) with true in HR
    by (symmetry; apply andb_true_intro; split; [apply Z.leb_le|apply Z.ltb_lt]; lia).
  unfold ret in HR. cbv beta iota in HR.
  destruct r as [b|e].
  2:{ rewrite bind_tell in HR.
      exists [], [EvAccept (inr e); EvLog "fatal" (Error e)], (Exit 255), 
        (emit (EvLog "fatal" (Error e)) (emit (EvAccept (inr e)) w)).
      split; [done|]. split; [simpl; lia|].
      split; [simpl; by rewrite <- app_assoc|].
      split; [|right; right; left; by exists e].
      destruct mw as [m'|]; [right|by left].
      simpl. rewrite app_nil_r. symmetry. by apply insert_id. }
  destruct mw as [m'|]; simpl in m; subst m.
  - unfold bind at 1 2 in HR. rewrite multiWriter_Add_eq in HR. simpl in HR.
    rewrite Hmw in HR. cbv beta iota in HR. simpl mux in HR. cbv iota in HR.
    destruct (mutex_Lock sys (w_trace w ++ [EvAccept (inl b)]) m') eqn:Hlock.
    2:{ exists [], [EvAccept (inl b)], Blocked, (emit (EvAccept (inl b)) w).
        split; [done|]. split; [simpl; lia|]. split; [done|].
        split.
        - right. simpl. rewrite app_nil_r. symmetry. by apply insert_id.
        - right; right; right; right. exists b.
          split; [done|]. split; [done|]. split; [by left|done]. }
    rewrite bind_tell in HR.
    destruct (IH (n + 1)%Z (<[Z.to_nat (n + 1) := Some b]> a) (Some m')
                (emit (EvGoCopyFromClient master b)
                   (set_heap (<[m' := {| mux := false; writers := ws0 ++ [ConnW b] |}]>
                                (w_heap w)) (emit (EvAccept (inl b)) w)))
                (ws0 ++ [ConnW b]))
      as (cs & tail & s & w' & Hrun & Hlen & Htr & Hheap & Hstop);
      [lia|by rewrite length_insert|simpl; by rewrite lookup_insert_eq|].
    exists (b :: cs), tail, s, w'. split; [by rewrite HR|].
    split; [simpl length; lia|].
    split; [rewrite Htr; simpl; by rewrite <- !app_assoc|].
    split.
    + right. destruct Hheap as [(Hnone & _)|Hheap]; [done|].
      rewrite Hheap. simpl. by rewrite insert_insert_eq, <- app_assoc.
    + destruct Hstop as [Hs|[Hs|[Hs|[(r & Hs & Ht & Hl)|(b' & Hs & Ht & _ & Hl)]]]];
        [by left|by right; left|by right; right; left| |].
      * right; right; right; left. exists r.
        split; [done|]. split; [done|]. simpl length. lia.
      * right; right; right; right. exists b'.
        split; [done|]. split; [done|]. split; [by left|done].
  - subst ws0.
    destruct (MultiWriter_flattens [ConnW b] (emit (EvAccept (inl b)) w))
      as (m & Hfresh & Hnew).
    { intros a' [Ha'|[]]. discriminate. }
    assert (Hm : m = fresh (dom (w_heap w))).
    { unfold MultiWriter, bind, new_multiWriter in Hnew. simpl in Hnew.
      by injection Hnew as <- _. }
    unfold bind at 1 2 3 in HR. rewrite Hnew in HR. unfold tell at 1 in HR.
    cbv beta iota in HR. rewrite bind_tell in HR.
    destruct (IH (n + 1)%Z (<[Z.to_nat (n + 1) := Some b]> a) (Some m)
                (emit (EvGoCopyFromClient master b)
                   (emit (EvGoCopyToClients m)
                      (set_heap (<[m := {| mux := false;
                                           writers := flatten (w_heap w) [ConnW b] |}]>
                                   (w_heap w)) (emit (EvAccept (inl b)) w))))
                [ConnW b])
      as (cs & tail & s & w' & Hrun & Hlen & Htr & Hheap & Hstop);
      [lia|by rewrite length_insert|simpl; by rewrite lookup_insert_eq|].
    exists (b :: cs), tail, s, w'. simpl in Hrun. split; [by rewrite HR|].
    split; [simpl length; lia|].
    split; [rewrite Htr, <- Hm; simpl; by rewrite <- !app_assoc|].
    split.
    + right. destruct Hheap as [(Hnone & _)|Hheap]; [done|].
      rewrite Hheap, <- Hm. simpl. by rewrite insert_insert_eq.
    + destruct Hstop as [Hs|[Hs|[Hs|[(r & Hs & Ht & Hl)|(b' & Hs & Ht & _ & Hl)]]]];
        [by left|by right; left|by right; right; left| |].
      * right; right; right; left. exists r.
        split; [done|]. split; [done|]. simpl length. lia.
      * right; right; right; right. exists b'.
        split; [done|]. split; [done|]. split; [by right|].
        by rewrite <- Hm.
Qed.

(** X12. handleStream wires at most ten clients. The clients it wires are
    the first ones accepted, in that order: the first makes the one
    broadcaster and starts the one task that copies the output to it, every
    later one is added at the end of that broadcaster, and each gets its own
    task copying its input to the master stream. The loop stops in one of
    four ways (or is still running when the iterations given to it are used
    up): an accept that never returns; an accept error, which is logged and
    exits with status 255 without closing the listener; the out-of-range
    store, after ten clients were wired, with the listener closed by the
    deferred call; an Add that never gets the lock of the broadcaster,
    because the output copy task holds it in a Write that does not return:
    the client just accepted is then not wired, the ones before it are. *)
Theorem handleStream_wiring (sys : Oracle) (fuel : nat) (master : Z) (w : World) :
  let m := fresh (dom (w_heap w)) in
  exists cs tail s w',
    handleStream sys fuel master w = (Halt s, w') /\
    (length cs <= 10)%nat /\
    w_trace w' = w_trace w ++ wired master m true cs ++ tail /\
    ((cs = [] /\ w_heap w' = w_heap w) \/
     w_heap w' = <[m := {| mux := false; writers := map ConnW cs |}]> (w_heap w)) /\
    ((s = OutOfFuel /\ tail = []) \/
     (s = Blocked /\ tail = [] /\ net_Accept sys (w_trace w') = AcceptBlocks) \/
     (exists e, s = Exit 255 /\ tail = [EvAccept (inr e); EvLog "fatal" (Error e)]) \/
     (exists r, s = Panic "index out of range" /\
                tail = [EvAccept r; EvListenerClose] /\ length cs = 10%nat) \/
     (exists b, s = Blocked /\ tail = [EvAccept (inl b)] /\ cs <> [] /\
                mutex_Lock sys (w_trace w') m = LockBlocks)).
Proof.
  intros m.
  destruct (handleStream_loop_wires sys master fuel (-1)%Z
              (replicate (Z.to_nat maxClient) None) None w [])
    as (cs & tail & s & w' & Hrun & Hlen & Htr & Hheap & Hstop);
    [lia|done|done|].
  simpl in Htr, Hheap.
  assert (Hheap' : (cs = [] /\ w_heap w' = w_heap w) \/
                   w_heap w' = <[m := {| mux := false; writers := map ConnW cs |}]>
                                 (w_heap w)).
  { destruct Hheap as [(_ & -> & Hh)|Hh]; [by left|by right]. }
  unfold handleStream, defer_. rewrite Hrun.
  destruct Hstop
    as [[-> ->]|[(-> & -> & Hb)|[(e & -> & ->)|[(r & -> & -> & Hl)|(b & -> & -> & Hc & Hb)]]]].
  - exists cs, [], OutOfFuel, w'.
    split; [done|]. split; [lia|]. split; [done|]. split; [done|]. by left.
  - exists cs, [], Blocked, w'.
    split; [done|]. split; [lia|]. split; [done|]. split; [done|]. by right; left.
  - exists cs, [EvAccept (inr e); EvLog "fatal" (Error e)], (Exit 255), w'.
    split; [done|]. split; [lia|]. split; [done|]. split; [done|].
    right; right; left. by exists e.
  - exists cs, [EvAccept r; EvListenerClose], (Panic "index out of range"),
      (emit EvListenerClose w').
    split; [done|]. split; [lia|].
    split; [simpl; rewrite Htr; by rewrite <- !app_assoc|].
    split; [done|]. right; right; right; left.
    exists r. split; [done|]. split; [done|]. lia.
  - exists cs, [EvAccept (inl b)], Blocked, w'.
    split; [done|]. split; [lia|]. split; [done|]. split; [done|].
    right; right; right; right. exists b.
    split; [done|]. split; [done|]. split; [|done].
    destruct Hc as [[? [=]]|Hc]; done.
Qed.

(** A session in which the output copy task holds the lock for ever when
    the second client arrives: the first client is wired, the second is
    accepted and left waiting, and the accept loop waits with it. *)
Example handleStream_waits_for_the_lock :
  handleStream copy_task_stuck 5 0%Z w0
    = (Halt Blocked,
       set_heap {[ 0%nat := {| mux := false; writers := [ConnW 0] |} ]}
         (extend w0 [EvAccept (inl 0); EvGoCopyToClients 0;
                     EvGoCopyFromClient 0%Z 0; EvAccept (inl 1)])).
Proof. vm_compute. reflexivity. Qed.

(* ===================================================================== *)
(** ** The PATH entries of the environment *)
(* ===================================================================== *)

Lemma substring_all (s : string) : String.substring 0 (String.length s) s = s.
Proof. induction s as [|c s IH]; simpl; [done|]. by rewrite IH. Qed.

Lemma prefix_split (pre e : string) :
  String.prefix pre e = true ->
  e = pre +:+ string_from (String.length pre) e.
Proof.
  unfold string_from. revert e.
  induction pre as [|a pre IH]; intros e; simpl.
  - intros _. rewrite Nat.sub_0_r. by rewrite substring_all.
  - destruct e as [|b e]; [done|]. simpl.
    destruct (Ascii.ascii_dec a b) as [->|]; [|done].
    intros Hp. simpl. rewrite (IH e Hp) at 1. reflexivity.
Qed.

(** X14. The environment loop of StartProcess sets PATH, and nothing else,
    once for every entry of the form PATH=v, to the text v after the
    prefix, in the order of the entries (so the last such entry is the one
    in force for the path lookup); entries without the prefix set nothing.
    The loop cannot fail. *)
Theorem setenv_PATH_entries (env : list string) (w : World) :
  exists values,
    setenv_PATH env w = (Val tt, extend w (map (EvSetenv "PATH") values)) /\
    map (fun v => "PATH=" +:+ v) values
      = List.filter (fun e => strings_HasPrefix e "PATH=") env.
Proof.
  revert w. induction env as [|e rest IH]; intros w; simpl.
  - exists []. by rewrite extend_nil.
  - destruct (strings_HasPrefix e "PATH=") eqn:Hp.
    + rewrite bind_tell.
      destruct (IH (emit (EvSetenv "PATH" (string_from 5 e)) w))
        as (values & Heq & Hvalues).
      exists (string_from 5 e :: values). rewrite Heq. split.
      * by rewrite emit_extend, extend_extend.
      * simpl. rewrite Hvalues. f_equal.
        symmetry. apply (prefix_split "PATH=" e Hp).
    + unfold bind at 1. unfold ret at 1.
      destruct (IH w) as (values & Heq & Hvalues). by exists values.
Qed.

(* ===================================================================== *)
(** ** What exec is given *)
(* ===================================================================== *)

Lemma handshake_and_exec_events (sys : Oracle) (spec : Spec) (bpath : string)
    (args env : list string) (w : World) :
  exists tail,
    snd (handshake_and_exec sys spec bpath args env w) = extend w tail /\
    forall tr1 a0 av ev x tr2,
      tail = tr1 ++ EvExec a0 av ev x :: tr2 ->
      a0 = bpath /\ av = args /\ ev = env /\
      (exists tr0, tr1 = tr0 ++ [EvSecurityConfigure None]) /\
      Forall (fun e => is_exec e = false) (tr1 ++ tr2).
Proof.
  destruct (handshake_and_exec_shape sys spec bpath args env w)
    as (tail & Hw & Hshape).
  exists tail. split; [done|].
  assert (Hargs : forall a0 av ev x, In (EvExec a0 av ev x) tail ->
                    a0 = bpath /\ av = args /\ ev = env).
  { assert (He : Emits (fun e => match e with
                                 | EvExec a0 av ev _ =>
                                     bool_decide (a0 = bpath /\ av = args /\ ev = env)
                                 | _ => true
                                 end)
                   (handshake_and_exec sys spec bpath args env)).
    { unfold handshake_and_exec, masterConn_Write, masterConn_Read.
      repeat first
        [ apply Emits_ask; intros; first [reflexivity | by apply bool_decide_eq_true]
        | emits_step ]. }
    destruct (He w) as (evs & Hw' & Hevs). rewrite Hw in Hw'.
    assert (tail = evs) as ->.
    { unfold extend in Hw'. injection Hw' as Heq. by apply app_inv_head in Heq. }
    intros a0 av ev x Hin. rewrite Forall_forall in Hevs.
    apply list_elem_of_In in Hin. specialize (Hevs _ Hin). simpl in Hevs.
    by apply bool_decide_eq_true in Hevs. }
  intros tr1 a0 av ev x tr2 Heq.
  destruct (Hargs a0 av ev x) as (-> & -> & ->).
  { rewrite Heq. apply in_or_app. right. by left. }
  repeat split; try done.
  - clear Hargs Hw. subst tail. invert_shape Hshape; by eexists [_; _].
  - clear Hargs Hw. subst tail. invert_shape Hshape; by repeat constructor.
Qed.

Lemma quiet_run (t t' : list Event) (evs : list Event)
    (Q : list Event -> Event -> list Event -> Prop) :
  Forall (fun e => not_exec e = true) evs ->
  t' = t ++ evs ->
  exists evs',
    t' = t ++ evs' /\
    forall tr1 e tr2,
      evs' = tr1 ++ e :: tr2 -> is_exec e = true -> Q tr1 e tr2.
Proof.
  intros Hq Hw. exists evs. split; [done|].
  intros tr1 e tr2 Heq He. exfalso.
  rewrite Heq in Hq. apply Forall_app in Hq as [_ Hq].
  inversion Hq as [|? ? Hne _]; subst. unfold not_exec in Hne.
  by rewrite He in Hne.
Qed.

Ltac close_quiet :=
  subst; unfold halt; simpl; rewrite <- ?app_assoc;
  eapply quiet_run; [|reflexivity];
  repeat (apply Forall_app; split); try done; by repeat constructor.

Ltac quiet_step HR tac :=
  match type of HR with
  | _ = bind ?m ?k ?w1 =>
      let evs := fresh "evs" in
      let Hevs := fresh "Hevs" in
      let Hb := fresh "Hb" in
      destruct (bind_emits not_exec m k w1) as (evs & Hevs & [[? Hb]|[? Hb]]);
      [ tac
      | rewrite Hb in HR; clear Hb; rewrite ?extend_extend in HR
      | rewrite Hb in HR; clear Hb; rewrite ?extend_extend in HR;
        close_quiet ]
  end.

(** X13. When StartProcess attempts exec, it does so once, right after the
    security policy was applied without error. It executes the path that
    the lookup returned for the first argument, with that path in place of
    the first argument, the other arguments unchanged, and the environment
    of the spec. *)
Theorem StartProcess_exec_arguments (sys : Oracle) (engine : EngineOperations) (w : World) :
  exists evs,
    w_trace (snd (StartProcess sys engine w)) = w_trace w ++ evs /\
    forall tr1 e tr2,
      evs = tr1 ++ e :: tr2 -> is_exec e = true ->
      (exists path x arg0 rest,
         Args (OciProcess engine) = arg0 :: rest /\
         e = EvExec path (path :: rest) (Env (OciProcess engine)) x /\
         In (EvLookPath arg0 (path, None)) tr1) /\
      (exists tr0, tr1 = tr0 ++ [EvSecurityConfigure None]) /\
      Forall (fun e' => is_exec e' = false) (tr1 ++ tr2).
Proof.
  unfold StartProcess. rewrite call_outcome. simpl snd.
  match goal with |- context [snd (?b w)] => remember (b w) as R eqn:HR end.
  rewrite <- (extend_nil w) in HR at 1.
  quiet_step HR ltac:(emits).
  quiet_step HR ltac:(emits).
  quiet_step HR ltac:(emits).
  quiet_step HR ltac:(by apply Emits_setRlimit).
  quiet_step HR ltac:(emits).
  destruct (EmptyProcess engine).
  { quiet_step HR ltac:(unfold emptyProcess, masterConn_Write, masterConn_Read; emits).
    close_quiet. }
  quiet_step HR ltac:(by apply Emits_setenv_PATH).
  destruct (Args (OciProcess engine)) as [|arg0 rest] eqn:Hargs.
  { close_quiet. }
  rewrite bind_ask in HR.
  destruct (exec_LookPath sys _ arg0) as [bpath err] eqn:Hlook.
  destruct err as [e0|].
  { close_quiet. }
  unfold bind at 1 in HR. unfold check at 1, ret at 1 in HR. cbv beta iota in HR.
  rewrite emit_extend, extend_extend in HR.
  quiet_step HR ltac:(destruct (negb _); [unfold attach_terminal|]; emits).
  match type of HR with
  | _ = _ (extend w ?pre) =>
      assert (Hpre : Forall (fun e => not_exec e = true) pre)
        by (repeat (apply Forall_app; split); try done; by repeat constructor);
      assert (Hin : In (EvLookPath arg0 (bpath, None)) pre)
        by (apply in_or_app; left; apply in_or_app; right; by left);
      remember pre as PRE eqn:Hdef; clear Hdef
  end.
  change (R = handshake_and_exec sys (OciSpec (with_Args (bpath :: rest) engine))
                bpath (bpath :: rest) (Env (OciProcess engine)) (extend w PRE)) in HR.
  destruct (handshake_and_exec_events sys (OciSpec (with_Args (bpath :: rest) engine))
              bpath (bpath :: rest) (Env (OciProcess engine)) (extend w PRE))
    as (tail & Hw & Htail).
  rewrite <- HR in Hw. rewrite Hw. simpl.
  exists (PRE ++ tail). split; [by rewrite app_assoc|].
  intros tr1 e tr2 Heq He.
  destruct (split_after not_exec PRE tail tr1 e tr2 Hpre) as (s1 & -> & ->);
    [unfold not_exec; by rewrite He|done|].
  destruct e as [| | | | | | | | | | | | |path argv envv res| | | | | | | | | | | |];
    try discriminate.
  destruct (Htail s1 path argv envv res tr2 eq_refl)
    as (-> & -> & -> & [tr0 ->] & Hq).
  split; [|split].
  - exists bpath, res, arg0, rest. repeat split; try done.
    apply in_or_app. by left.
  - exists (PRE ++ tr0). by rewrite app_assoc.
  - rewrite <- app_assoc. apply Forall_app. split; [|done].
    eapply Forall_impl; [exact Hpre|]. intros e' He'. unfold not_exec in He'.
    by destruct (is_exec e').
Qed.

(** A run that reaches exec: the path comes from the lookup. *)
Example StartProcess_exec_arguments_run :
  exists tr1 tr2,
    w_trace (snd (StartProcess ok_sys (true_engine "/" []) w0))
      = tr1 ++ EvExec "/bin/true" ["/bin/true"] [] None :: tr2 /\
    In (EvLookPath "/bin/true" ("/bin/true", None)) tr1.
Proof.
  eexists [_; _; _; _; _], []. split; [reflexivity|]. right. by left.
Qed.
